(** * fakehttpfs: an in-memory [http.FileSystem] for tests

    A shallow embedding of [fakefs.go] (package [fakehttpfs]) and the
    properties of its path resolver ([dir.Open], [dir.find]), of its
    paginated directory listing ([dir.Readdir], [dir.Close]) and of the
    metadata accessors of files and directories.

    Go pointers ([*dir], [*bytes.Reader]) are addresses into a store, so that
    two references to one directory share its [position] and two copies of a
    [file] value share the read cursor of their reader. *)

From Stdlib Require Import ZArith String Ascii.
From Stdlib.Strings Require Import Byte.
From stdpp Require Import base option gmap list strings.
From Equations.Prop Require Import Equations Logic.

Local Open Scope Z_scope.

(** ** Values *)

(** Go's [error] values that the package produces or passes on:
    [os.ErrNotExist], [io.EOF] and the results of [errors.New]. *)
Inductive error :=
| ErrNotExist
| EOF
| errorsNew (msg : string).

(** [err.Error()]. *)
Definition Error (e : error) : string :=
  match e with
  | ErrNotExist => "file does not exist"
  | EOF => "EOF"
  | errorsNew msg => msg
  end.

(** [time.Time]; its zero value is the struct with all fields zero. *)
Record Time := mkTime { wall : Z; ext : Z }.

Definition zeroTime : Time := mkTime 0 0.

(** [bytes.Reader]: the bytes [s] and the current reading index [i]. *)
Record Reader := mkReader { r_s : list byte; r_i : Z }.

(** [type file struct { name; size; modTime; *bytes.Reader }]: a value type,
    copied freely, whose copies point to one reader. *)
Record file := mkfile {
  f_name : string;
  f_size : Z;
  f_modTime : Time;
  f_Reader : nat
}.

(** An [http.File]: a [file] value, a [*dir] pointer, or an object supplied by
    the caller (a real [*os.File], a stub), known by a handle. *)
Inductive node :=
| NFile (f : file)
| NDir (a : nat)
| NExt (x : nat).

(** [type dir struct { name; files; position }]. *)
Record dir := mkdir {
  d_name : string;
  d_files : list node;
  d_position : Z
}.

(** What an external object's [Stat] answers. *)
Record ExtInfo := mkExtInfo {
  ei_name : string;
  ei_size : Z;
  ei_isDir : bool;
  ei_modTime : Time
}.

(** An external object is a state machine of its own: [Stat] reads its private
    state, answers with a description or with an error, and may change the
    private state. It has no access to the unexported fields of this
    package. *)
Record extfile := mkext {
  ext_state : nat;
  ext_Stat : nat -> (ExtInfo + error) * nat
}.

(** An [os.FileInfo]: [file.Stat] returns the file value itself, [dir.Stat]
    the directory pointer itself, an external object whatever it likes. *)
Inductive FileInfo :=
| IFile (f : file)
| IDir (a : nat)
| IExt (e : ExtInfo).

(** ** The store *)

Record state := mkstate {
  dirs : gmap nat dir;
  readers : gmap nat Reader;
  exts : gmap nat extfile
}.

(** A Go call returns or panics. *)
Inductive result (A : Type) :=
| Ret (a : A)
| Panic (msg : string).
Arguments Ret {A} a.
Arguments Panic {A} msg.

Definition M (A : Type) : Type := state -> result (A * state).

#[global] Instance M_ret : MRet M := fun A a st => Ret (a, st).

#[global] Instance M_bind : MBind M := fun A B k c st =>
  match c st with
  | Ret (a, st') => k a st'
  | Panic msg => Panic msg
  end.

Definition panic {A} (msg : string) : M A := fun _ => Panic msg.

Definition nil_deref : string := "invalid memory address or nil pointer dereference".
Definition out_of_range : string := "index out of range".

Definition get_dir (a : nat) : M dir := fun st =>
  match dirs st !! a with
  | Some d => Ret (d, st)
  | None => Panic nil_deref
  end.

Definition put_dir (a : nat) (d : dir) : M unit := fun st =>
  Ret (tt, mkstate (<[a := d]> (dirs st)) (readers st) (exts st)).

Definition get_reader (p : nat) : M Reader := fun st =>
  match readers st !! p with
  | Some r => Ret (r, st)
  | None => Panic nil_deref
  end.

Definition put_reader (p : nat) (r : Reader) : M unit := fun st =>
  Ret (tt, mkstate (dirs st) (<[p := r]> (readers st)) (exts st)).

(** [&dir{...}] and [bytes.NewReader]: a fresh address. *)
Definition new_dir (d : dir) : M nat := fun st =>
  let a := fresh (dom (dirs st)) in
  Ret (a, mkstate (<[a := d]> (dirs st)) (readers st) (exts st)).

Definition new_reader (r : Reader) : M nat := fun st =>
  let p := fresh (dom (readers st)) in
  Ret (p, mkstate (dirs st) (<[p := r]> (readers st)) (exts st)).

(** Length of a slice, as a Go [int]. *)
Definition len {A} (l : list A) : Z := Z.of_nat (length l).

(** [l[k]] with Go's bounds check. *)
Definition index {A} (l : list A) (k : Z) : M A :=
  if (k <? 0) || (len l <=? k) then panic out_of_range
  else match l !! Z.to_nat k with
       | Some x => mret x
       | None => panic out_of_range
       end.

(** ** Library functions the package calls *)

(** [strings.SplitN(s, sep, n)] for a one-byte separator and [n >= 0]: at most
    [n] pieces, the last one being the unsplit rest. *)
Fixpoint SplitN (s : string) (sep : ascii) (n : nat) {struct s} : list string :=
  match n with
  | O => []
  | S O => [s]
  | S (S _ as n') =>
      match s with
      | EmptyString => [EmptyString]
      | String c s' =>
          if Ascii.eqb c sep then EmptyString :: SplitN s' sep n'
          else match SplitN s' sep n with
               | [] => []
               | h :: t => String c h :: t
               end
      end
  end.

(** The path separator. *)
Abbreviation slash := ("/"%char) (only parsing).

(** [bytes.Reader.Len]: the number of bytes of the unread portion. *)
Definition Reader_Len (r : Reader) : Z :=
  if r_i r >=? len (r_s r) then 0 else len (r_s r) - r_i r.

(** [bytes.Reader.Read(b)] for a buffer of [n] bytes: the bytes copied into
    the front of [b], with their number and the error. *)
Definition Reader_Read (p : nat) (n : nat) : M (list byte * Z * option error) :=
  r ← get_reader p;
  if r_i r >=? len (r_s r) then mret ([], 0, Some EOF)
  else if r_i r <? 0 then panic "slice bounds out of range"
  else
    let data := take n (drop (Z.to_nat (r_i r)) (r_s r)) in
    _ ← put_reader p (mkReader (r_s r) (r_i r + len data));
    mret (data, len data, None).

(** [bytes.Reader.Seek(offset, whence)]. *)
Definition Reader_Seek (p : nat) (offset whence : Z) : M (Z * option error) :=
  r ← get_reader p;
  let abs :=
    if whence =? 0 then Some offset
    else if whence =? 1 then Some (r_i r + offset)
    else if whence =? 2 then Some (len (r_s r) + offset)
    else None in
  match abs with
  | None => mret (0, Some (errorsNew "bytes.Reader.Seek: invalid whence"))
  | Some abs =>
      if abs <? 0 then mret (0, Some (errorsNew "bytes.Reader.Seek: negative position"))
      else _ ← put_reader p (mkReader (r_s r) abs); mret (abs, None)
  end.

(** ** The package *)

(** An argument of the variadic [options ...interface{}] of [File]: a
    [time.Time], or a value of another type, known by its type's name. *)
Inductive option_value :=
| OTime (t : Time)
| OOther (type_name : string).

(** The loop of [File] over its options. *)
Fixpoint File_options (f : file) (options : list option_value) : M file :=
  match options with
  | [] => mret f
  | OTime t :: rest =>
      File_options (mkfile (f_name f) (f_size f) t (f_Reader f)) rest
  | OOther ty :: _ => panic ("Unknown option type " +:+ ty)
  end.

(** [func File(name, contents string, options ...interface{}) http.File]. *)
Definition File (name contents : string) (options : list option_value) : M node :=
  let b := list_byte_of_string contents in
  p ← new_reader (mkReader b 0);
  f ← File_options (mkfile name (len b) zeroTime p) options;
  mret (NFile f).

(** [func Dir(name string, files ...http.File) http.File]. *)
Definition Dir (name : string) (files : list node) : M node :=
  a ← new_dir (mkdir name files 0); mret (NDir a).

(** [func FileSystem(files ...http.File) http.FileSystem]. *)
Definition FileSystem (files : list node) : M nat :=
  new_dir (mkdir "" files 0).

(** *** Methods of [file] *)

Definition file_Stat (f : file) : M (option FileInfo * option error) :=
  mret (Some (IFile f), None).

Definition file_Readdir (f : file) (count : Z)
  : M (list (option FileInfo) * option error) :=
  mret ([], Some (errorsNew "Not dir")).

Definition file_Read (f : file) (n : nat) : M (list byte * Z * option error) :=
  Reader_Read (f_Reader f) n.

Definition file_Seek (f : file) (offset whence : Z) : M (Z * option error) :=
  Reader_Seek (f_Reader f) offset whence.

(** [func (f file) Close() error]: back to the start; a failing [Seek]
    panics with the error. *)
Definition file_Close (f : file) : M (option error) :=
  '(_, err) ← file_Seek f 0 0;
  match err with
  | Some e => panic (Error e)
  | None => mret None
  end.

Definition file_Name (f : file) : M string := mret (f_name f).

Definition file_Size (f : file) : M Z :=
  r ← get_reader (f_Reader f); mret (Reader_Len r).

(** [0644]. *)
Definition file_Mode (f : file) : M Z := mret 420.

Definition file_ModTime (f : file) : M Time := mret (f_modTime f).

Definition file_IsDir (f : file) : M bool := mret false.

(** *** The interfaces [http.File] and [os.FileInfo] *)

(** [Stat] of an external object: one step of its machine. *)
Definition ext_do_Stat (x : nat) : M (option FileInfo * option error) := fun st =>
  match exts st !! x with
  | None => Panic nil_deref
  | Some o =>
      let '(r, s') := ext_Stat o (ext_state o) in
      let st' := mkstate (dirs st) (readers st)
                         (<[x := mkext s' (ext_Stat o)]> (exts st)) in
      match r with
      | inl info => Ret ((Some (IExt info), None), st')
      | inr e => Ret ((None, Some e), st')
      end
  end.

(** [dir.Stat] returns the pointer itself and does not look into it. *)
Definition dir_Stat (a : nat) : M (option FileInfo * option error) :=
  mret (Some (IDir a), None).

Definition Stat (n : node) : M (option FileInfo * option error) :=
  match n with
  | NFile f => file_Stat f
  | NDir a => dir_Stat a
  | NExt x => ext_do_Stat x
  end.

Definition dir_Name (a : nat) : M string :=
  d ← get_dir a; mret (d_name d).

Definition dir_Size (a : nat) : M Z := mret 0.

(** [0755 | os.ModeDir]. *)
Definition dir_Mode (a : nat) : M Z := mret (Z.lor 493 (Z.shiftl 1 31)).

Definition dir_ModTime (a : nat) : M Time := panic "unimplemented".

Definition dir_IsDir (a : nat) : M bool := mret true.

(** Method calls on an [os.FileInfo] value; on the nil interface they panic. *)
Definition Name (fi : option FileInfo) : M string :=
  match fi with
  | Some (IFile f) => file_Name f
  | Some (IDir a) => dir_Name a
  | Some (IExt e) => mret (ei_name e)
  | None => panic nil_deref
  end.

Definition Size (fi : option FileInfo) : M Z :=
  match fi with
  | Some (IFile f) => file_Size f
  | Some (IDir a) => dir_Size a
  | Some (IExt e) => mret (ei_size e)
  | None => panic nil_deref
  end.

Definition ModTime (fi : option FileInfo) : M Time :=
  match fi with
  | Some (IFile f) => file_ModTime f
  | Some (IDir a) => dir_ModTime a
  | Some (IExt e) => mret (ei_modTime e)
  | None => panic nil_deref
  end.

Definition IsDir (fi : option FileInfo) : M bool :=
  match fi with
  | Some (IFile f) => file_IsDir f
  | Some (IDir a) => dir_IsDir a
  | Some (IExt e) => mret (ei_isDir e)
  | None => panic nil_deref
  end.

(** *** Methods of [*dir] *)

(** The loop of [dir.find] over [d.files]. *)
Fixpoint find_loop (files : list node) (name : string)
  : M (option node * option error) :=
  match files with
  | [] => mret (None, Some ErrNotExist)
  | file :: rest =>
      '(stat, err) ← Stat file;
      match err with
      | Some e => mret (None, Some e)
      | None =>
          n ← Name stat;
          if String.eqb n name then mret (Some file, None)
          else find_loop rest name
      end
  end.

(** [func (d *dir) find(name string) (http.File, error)]. *)
Definition dir_find (a : nat) (name : string) : M (option node * option error) :=
  if String.eqb name "" || String.eqb name "." then mret (Some (NDir a), None)
  else d ← get_dir a; find_loop (d_files d) name.

(** [func (d *dir) Open(name string) (http.File, error)]: the recursive call
    is on [parts[1]], which is shorter than [name]. *)
Equations? dir_Open (a : nat) (name : string)
  : M (option node * option error) by wf (String.length name) lt :=
  dir_Open a name with inspect (SplitN name slash 2) := {
    | exist _ nil _ => panic out_of_range
    | exist _ (cons p0 nil) _ => dir_find a p0
    | exist _ (cons p0 (cons p1 _)) Hparts =>
        '(file, err) ← dir_find a p0;
        match file with
        | Some (NDir subDir) => dir_Open subDir p1
        | _ => mret (None, Some ErrNotExist)
        end
  }.
Proof.
  clear dir_Open.
  match goal with
  | H : SplitN name _ 2 = p0 :: p1 :: ?tl |- _ => revert p0 p1 tl H
  end.
  induction name as [|c name IH]; intros p0 p1 tl; simpl; [discriminate|].
  destruct (Ascii.eqb c slash).
  - destruct name; intros H; inversion H; subst; simpl; lia.
  - destruct (SplitN name slash 2) as [|h t] eqn:E; [discriminate|].
    intros H. inversion H. subst. specialize (IH _ _ _ eq_refl). lia.
Qed.

(** [r[lo:hi]] with Go's bounds check; the capacity of [r] is its length. *)
Definition slice {A} (r : list A) (lo hi : Z) : M (list A) :=
  if (lo <? 0) || (hi <? lo) || (len r <? hi)
  then panic "slice bounds out of range"
  else mret (take (Z.to_nat (hi - lo)) (drop (Z.to_nat lo) r)).

(** The loop of [Readdir(0)]: [for i, f := range d.files]. The result slice
    [r] starts as [len(d.files)] nil entries; [r[i]] receives what [Stat]
    returned also when [Stat] failed. *)
Fixpoint Readdir_all (files : list node) (r : list (option FileInfo)) (i : nat)
  : M (list (option FileInfo) * option error) :=
  match files with
  | [] => mret (r, None)
  | f :: rest =>
      '(stat, err) ← Stat f;
      let r := <[i := stat]> r in
      match err with
      | Some e => r' ← slice r 0 (Z.of_nat i); mret (r', Some e)
      | None => Readdir_all rest r (S i)
      end
  end.

(** The loop of [Readdir(count)] for [count > 0], with [n] rounds left:
    [for i := 0; i < count; i++]. The position is read again from the
    directory in every round. The increment cannot overflow: it happens only
    below [len(d.files)]. *)
Fixpoint Readdir_page (a : nat) (r : list (option FileInfo)) (i n : nat)
  : M (list (option FileInfo) * option error) :=
  match n with
  | O => mret (r, None)
  | S n' =>
      d ← get_dir a;
      if d_position d >? len (d_files d) - 1
      then r' ← slice r 0 (Z.of_nat i); mret (r', Some EOF)
      else
        f ← index (d_files d) (d_position d);
        '(stat, err) ← Stat f;
        let r := <[i := stat]> r in
        match err with
        | Some e => r' ← slice r 0 (Z.of_nat i); mret (r', Some e)
        | None =>
            d ← get_dir a;
            _ ← put_dir a (mkdir (d_name d) (d_files d) (d_position d + 1));
            Readdir_page a r (S i) n'
        end
  end.

(** [func (d *dir) Readdir(count int) (r []os.FileInfo, err error)]. *)
Definition dir_Readdir (a : nat) (count : Z)
  : M (list (option FileInfo) * option error) :=
  if count =? 0 then
    d ← get_dir a;
    Readdir_all (d_files d) (replicate (length (d_files d)) None) 0
  else if count <? 0 then panic "makeslice: len out of range"
  else Readdir_page a (replicate (Z.to_nat count) None) 0 (Z.to_nat count).

(** [func (d *dir) Close() error]. *)
Definition dir_Close (a : nat) : M (option error) :=
  d ← get_dir a;
  _ ← put_dir a (mkdir (d_name d) (d_files d) 0);
  mret None.

Definition dir_Read (a : nat) (n : nat) : M (list byte * Z * option error) :=
  mret ([], 0, Some (errorsNew "Not regular file")).

Definition dir_Seek (a : nat) (offset whence : Z) : M (Z * option error) :=
  mret (0, Some (errorsNew "Not regular file")).

(** *** The earlier revision of [Readdir]

    The first half of [fakefs.go] holds the package as it was before
    pagination was revised; its [Readdir] differs from the later one in the
    slice it returns when [Stat] fails in the [count == 0] loop:
    [r[0 : i-1]]. *)
Fixpoint Readdir_all_rev1 (files : list node) (r : list (option FileInfo)) (i : nat)
  : M (list (option FileInfo) * option error) :=
  match files with
  | [] => mret (r, None)
  | f :: rest =>
      '(stat, err) ← Stat f;
      let r := <[i := stat]> r in
      match err with
      | Some e => r' ← slice r 0 (Z.of_nat i - 1); mret (r', Some e)
      | None => Readdir_all_rev1 rest r (S i)
      end
  end.

Definition dir_Readdir_rev1 (a : nat) (count : Z)
  : M (list (option FileInfo) * option error) :=
  if count =? 0 then
    d ← get_dir a;
    Readdir_all_rev1 (d_files d) (replicate (length (d_files d)) None) 0
  else if count <? 0 then panic "makeslice: len out of range"
  else Readdir_page a (replicate (Z.to_nat count) None) 0 (Z.to_nat count).

(** ** Clients *)

(** Reading a file to its end the way [bytes.Buffer.ReadFrom] and
    [ioutil.ReadAll] do: [Read] into a buffer of [chunk] bytes until [io.EOF]
    or another error. [None] when [fuel] rounds were not enough. *)
Fixpoint ReadAll (fuel : nat) (f : file) (chunk : nat) (acc : list byte)
  : M (option (list byte * option error)) :=
  match fuel with
  | O => mret None
  | S fuel' =>
      '(data, _, err) ← file_Read f chunk;
      match err with
      | Some EOF => mret (Some (acc ++ data, None))
      | Some e => mret (Some (acc ++ data, Some e))
      | None => ReadAll fuel' f chunk (acc ++ data)
      end
  end.

(** [n] calls of [Readdir(count)] in a row, with what each returned. *)
Fixpoint Readdir_times (n : nat) (a : nat) (count : Z)
  : M (list (list (option FileInfo) * option error)) :=
  match n with
  | O => mret []
  | S n' =>
      page ← dir_Readdir a count;
      pages ← Readdir_times n' a count;
      mret (page :: pages)
  end.

(** ** Specification-level notions *)

(** The metadata of the nodes of a list, queried one after the other, up to
    the first failure: the entries obtained and the error that stopped the
    scan, if any. *)
Fixpoint Stat_each (files : list node) : M (list (option FileInfo) * option error) :=
  match files with
  | [] => mret ([], None)
  | f :: rest =>
      '(stat, err) ← Stat f;
      match err with
      | Some e => mret ([], Some e)
      | None => '(infos, err') ← Stat_each rest; mret (stat :: infos, err')
      end
  end.

(** The [os.FileInfo] of a node of this package: the node itself. *)
Definition info_of (n : node) : option FileInfo :=
  match n with
  | NFile f => Some (IFile f)
  | NDir a => Some (IDir a)
  | NExt _ => None
  end.

(** A node built by [File] or [Dir], as opposed to one supplied from outside;
    a directory must be allocated in the store [st]. *)
Definition pkg_node (st : state) (n : node) : bool :=
  match n with
  | NFile _ => true
  | NDir b => bool_decide (is_Some (dirs st !! b))
  | NExt _ => false
  end.

(** Every node below every directory of the store is of this package. *)
Definition pkg_built (st : state) : Prop :=
  map_Forall (fun _ d => forallb (pkg_node st) (d_files d) = true) (dirs st).

Fixpoint has_slash (s : string) : bool :=
  match s with
  | EmptyString => false
  | String c s' => Ascii.eqb c slash || has_slash s'
  end.

(** A path segment that names a child: not empty, not ["."], no separator. *)
Definition plain_segment (s : string) : bool :=
  negb (String.eqb s "") && negb (String.eqb s ".") && negb (has_slash s).

(** The first child called [name] in a run of nodes of this package. *)
Fixpoint first_named (st : state) (files : list node) (name : string) : option node :=
  match files with
  | [] => None
  | NFile g :: rest =>
      if String.eqb (f_name g) name then Some (NFile g)
      else first_named st rest name
  | NDir b :: rest =>
      match dirs st !! b with
      | Some d =>
          if String.eqb (d_name d) name then Some (NDir b)
          else first_named st rest name
      | None => None
      end
  | NExt _ :: _ => None
  end.

(** Node [n] sits in the tree below directory [a] at the end of the chain of
    segments [segs]. *)
Fixpoint placed (st : state) (a : nat) (segs : list string) (n : node) : Prop :=
  match segs with
  | [] => False
  | seg :: rest =>
      plain_segment seg = true /\
      exists d, dirs st !! a = Some d /\
        match rest with
        | [] => first_named st (d_files d) seg = Some n
        | _ :: _ => exists b, first_named st (d_files d) seg = Some (NDir b) /\
                              placed st b rest n
        end
  end.

(** The path that spells a chain of segments. *)
Fixpoint join_path (segs : list string) : string :=
  match segs with
  | [] => ""
  | [seg] => seg
  | seg :: rest => seg +:+ String slash (join_path rest)
  end.

(** What a trailing separator does to the outcome of a lookup. *)
Definition then_slash (r : result ((option node * option error) * state))
  : result ((option node * option error) * state) :=
  match r with
  | Ret ((Some (NDir b), _), st) => Ret ((Some (NDir b), None), st)
  | Ret (_, st) => Ret ((None, Some ErrNotExist), st)
  | Panic msg => Panic msg
  end.

(** The directory at [a] with its cursor moved to [p]. *)
Definition with_position (st : state) (a : nat) (p : Z) : state :=
  match dirs st !! a with
  | Some d => mkstate (<[a := mkdir (d_name d) (d_files d) p]> (dirs st))
                      (readers st) (exts st)
  | None => st
  end.

(** The [j]-th page of [K] entries of a listing, with the error that comes
    with it: [io.EOF] once the page is not full. *)
Definition page (infos : list (option FileInfo)) (K : Z) (j : nat)
  : list (option FileInfo) * option error :=
  (take (Z.to_nat K) (drop (j * Z.to_nat K) infos),
   if (Z.of_nat (S j) * K <=? len infos) then None else Some EOF).

(** One paginated listing call, as the specification has it: from a directory
    [d] at address [a] whose cursor is inside its children, query the next [n]
    children (fewer if fewer remain), append what was obtained to [done],
    advance the cursor by the number of entries obtained, and report the
    error of the query, or [io.EOF] when fewer than [n] children remained. *)
Definition next_page (st : state) (a : nat) (d : dir)
    (done : list (option FileInfo)) (n : nat)
  : result ((list (option FileInfo) * option error) * state) :=
  match Stat_each (take n (drop (Z.to_nat (d_position d)) (d_files d))) st with
  | Ret ((infos, err), st1) =>
      Ret ((done ++ infos,
            match err with
            | Some e => Some e
            | None => if d_position d + Z.of_nat n <=? len (d_files d)
                      then None else Some EOF
            end),
           mkstate (<[a := mkdir (d_name d) (d_files d) (d_position d + len infos)]>
                      (dirs st))
                   (readers st1) (exts st1))
  | Panic msg => Panic msg
  end.

(** ** Test data of [fakefs_test.go] *)

Definition empty_state : state := mkstate ∅ ∅ ∅.

Definition now : Time := mkTime 1414764000 0.

(** [var testFS = FileSystem(Dir("foo", ...), File("hello", "hello"))]. *)
Definition testFS : M nat :=
  bar ← File "bar" "BAR" [OTime now];
  baz4 ← File "baz" "BAZ" [];
  baz3 ← Dir "baz" [baz4];
  baz2 ← Dir "baz" [baz3];
  baz1 ← Dir "baz" [baz2];
  foo ← Dir "foo" [bar; baz1];
  hello ← File "hello" "hello" [];
  FileSystem [foo; hello].

(** [var testDir = Dir("foo", File("one", ""), ...)]. *)
Definition testDir : M node :=
  one ← File "one" "" [];
  two ← File "two" "" [];
  three ← File "three" "" [];
  four ← File "four" "" [];
  five ← File "five" "" [];
  Dir "foo" [one; two; three; four; five].

(** The store after a construction, and what was constructed. *)
Definition built {A} (m : M A) (default : A) : A * state :=
  match m empty_state with
  | Ret r => r
  | Panic _ => (default, empty_state)
  end.

(** The children of [testDir] once built: five empty files over the readers
    0 to 4. *)
Definition testDir_files : list node :=
  map (fun '(name, p) => NFile (mkfile name 0 zeroTime p))
      [("one", 0); ("two", 1); ("three", 2); ("four", 3); ("five", 4)]%nat.

Definition testDir_node : node := (built testDir (NDir 0)).1.
Definition testDir_state : state := (built testDir (NDir 0)).2.

Definition testFS_root : nat := (built testFS 0%nat).1.
Definition testFS_state : state := (built testFS 0%nat).2.

(** What a call returned, if it returned. *)
Definition returned {A} (r : result (A * state)) : option A :=
  match r with
  | Ret (a, _) => Some a
  | Panic _ => None
  end.

(** The body of the loop of [TestFilesystem]: open, read to the end, close. *)
Definition open_read_close (root : nat) (path : string) : M (option string) :=
  '(file, err) ← dir_Open root path;
  match file with
  | Some (NFile f) =>
      r ← ReadAll 64 f 512 [];
      _ ← file_Close f;
      mret (match r with
            | Some (b, None) => Some (string_of_list_byte b)
            | _ => None
            end)
  | _ => mret None
  end.

(** [func names(infos []os.FileInfo) []string]. *)
Fixpoint names (infos : list (option FileInfo)) : M (list string) :=
  match infos with
  | [] => mret []
  | info :: rest => n ← Name info; ns ← names rest; mret (n :: ns)
  end.

(** The loop of [TestReaddir]: [n] calls of [Readdir(count)], each reduced to
    the names and the error it returned. *)
Fixpoint Readdir_names (n : nat) (a : nat) (count : Z)
  : M (list (list string * option error)) :=
  match n with
  | O => mret []
  | S n' =>
      '(infos, err) ← dir_Readdir a count;
      ns ← names infos;
      rest ← Readdir_names n' a count;
      mret ((ns, err) :: rest)
  end.

(** A stub whose [Stat] always fails, and one that claims to be a directory
    called ["real"]. *)
Definition failing_stub : extfile :=
  mkext 0 (fun s => (inr (errorsNew "stat failed"), S s)).

Definition dir_like_stub : extfile :=
  mkext 0 (fun s => (inl (mkExtInfo "real" 4096 true zeroTime), S s)).

(** A directory ["d"] at address 0 holding a file ["one"] and then the failing
    stub; a root at address 1 holding that directory and the directory-like
    stub; a directory ["e"] at address 2 holding the failing stub alone. *)
Definition stub_state : state :=
  mkstate
    {[ 0%nat := mkdir "d" [NFile (mkfile "one" 0 zeroTime 0); NExt 0] 0;
       1%nat := mkdir "" [NDir 0; NExt 1] 0;
       2%nat := mkdir "e" [NExt 0] 0 ]}
    {[ 0%nat := mkReader [] 0 ]}
    {[ 0%nat := failing_stub; 1%nat := dir_like_stub ]}.

(** ** Further notions *)

(** The name a node of this package answers to: a field of the file value,
    or of the directory record in the store. *)
Definition name_of (st : state) (n : node) : option string :=
  match n with
  | NFile f => Some (f_name f)
  | NDir b => d_name <$> dirs st !! b
  | NExt _ => None
  end.

(** An option that [File] accepts. *)
Definition is_time (o : option_value) : bool :=
  match o with
  | OTime _ => true
  | OOther _ => false
  end.

(** * Properties *)

(** ** The monad *)

Ltac munfold := unfold mbind, M_bind, mret, M_ret, panic in *.

Lemma bind_Ret {A B} (c : M A) (k : A -> M B) st a st' :
  c st = Ret (a, st') -> (c ≫= k) st = k a st'.
Proof. intros H. munfold. now rewrite H. Qed.

Lemma bind_Panic {A B} (c : M A) (k : A -> M B) st msg :
  c st = Panic msg -> (c ≫= k) st = Panic msg.
Proof. intros H. munfold. now rewrite H. Qed.

(** ** Path resolution *)

Lemma SplitN_1 s sep : SplitN s sep 1 = [s].
Proof. destruct s; reflexivity. Qed.

Lemma SplitN_rest_shorter name p0 p1 tl :
  SplitN name slash 2 = p0 :: p1 :: tl ->
  (String.length p1 < String.length name)%nat.
Proof.
  revert p0 p1 tl. induction name as [|c name IH]; intros p0 p1 tl; simpl.
  - discriminate.
  - destruct (Ascii.eqb c slash).
    + rewrite SplitN_1. intros H. inversion H. subst. lia.
    + destruct (SplitN name slash 2) as [|h t] eqn:E; [discriminate|].
      intros H. inversion H. subst.
      specialize (IH _ _ _ eq_refl). lia.
Qed.

Lemma dir_Open_eq a name :
  dir_Open a name =
  match SplitN name slash 2 with
  | [] => panic out_of_range
  | [p0] => dir_find a p0
  | p0 :: p1 :: _ =>
      '(file, err) ← dir_find a p0;
      match file with
      | Some (NDir subDir) => dir_Open subDir p1
      | _ => mret (None, Some ErrNotExist)
      end
  end.
Proof.
  funelim (dir_Open a name);
    match goal with e : SplitN _ _ _ = _ |- _ => rewrite e end; reflexivity.
Qed.

Lemma append_cons c (s t : string) : String c s +:+ t = String c (s +:+ t).
Proof. reflexivity. Qed.

Lemma append_nil (t : string) : "" +:+ t = t.
Proof. reflexivity. Qed.

Lemma SplitN_2_shape s :
  SplitN s slash 2 = [s] /\ has_slash s = false \/
  exists p0 p1, SplitN s slash 2 = [p0; p1] /\ has_slash p0 = false /\
                s = p0 +:+ String slash p1.
Proof.
  induction s as [|c s IH]; simpl.
  - now left.
  - destruct (Ascii.eqb c slash) eqn:Ec.
    + right. exists "", s. rewrite SplitN_1. apply Ascii.eqb_eq in Ec. now subst c.
    + destruct IH as [[-> Hs]|(p0 & p1 & -> & Hp0 & ->)].
      * left. simpl. now rewrite Hs.
      * right. exists (String c p0), p1. rewrite append_cons. simpl. now rewrite Ec, Hp0.
Qed.

Lemma SplitN_join head rest :
  has_slash head = false ->
  SplitN (head +:+ String slash rest) slash 2 = [head; rest].
Proof.
  induction head as [|c head IH]; intros H.
  - rewrite append_nil. simpl. now rewrite SplitN_1.
  - rewrite append_cons. simpl in *.
    apply orb_false_iff in H as [-> H]. now rewrite (IH H).
Qed.

Lemma SplitN_plain s : has_slash s = false -> SplitN s slash 2 = [s].
Proof.
  induction s as [|c s IH]; simpl; intros H; [easy|].
  apply orb_false_iff in H as [-> H]. now rewrite (IH H).
Qed.

Lemma append_assoc_slash p0 p1 s :
  (p0 +:+ String slash p1) +:+ s = p0 +:+ String slash (p1 +:+ s).
Proof. induction p0 as [|c p0 IH]; [reflexivity|]. rewrite !append_cons. now rewrite IH. Qed.

Lemma dir_find_self a st :
  dir_find a "" st = Ret ((Some (NDir a), None), st).
Proof. reflexivity. Qed.

Lemma dir_Open_empty a st : dir_Open a "" st = Ret ((Some (NDir a), None), st).
Proof. rewrite dir_Open_eq. reflexivity. Qed.

Lemma dir_Open_leading_slash a p st :
  dir_Open a (String slash p) st = dir_Open a p st.
Proof.
  rewrite (dir_Open_eq a (String slash p)).
  change (SplitN (String slash p) slash 2) with ("" :: SplitN p slash 1).
  rewrite SplitN_1. reflexivity.
Qed.

(** C1. On a container, [Open("")], [Open(".")] and [Open("/")] succeed and
    return the container itself, the very pointer, in an unchanged store; and
    for every path [p], [Open("/" + p)] is [Open(p)], node or error alike. *)
Theorem Open_self_and_leading_slash (st : state) (root : nat) :
  dir_Open root "" st = Ret ((Some (NDir root), None), st) /\
  dir_Open root "." st = Ret ((Some (NDir root), None), st) /\
  dir_Open root "/" st = Ret ((Some (NDir root), None), st) /\
  forall p : string, dir_Open root ("/" +:+ p) st = dir_Open root p st.
Proof.
  split; [|split; [|split]].
  - apply dir_Open_empty.
  - rewrite dir_Open_eq. reflexivity.
  - rewrite dir_Open_leading_slash. apply dir_Open_empty.
  - intros p. apply dir_Open_leading_slash.
Qed.

Lemma dir_Open_then_slash_aux (n : nat) :
  forall p, (String.length p < n)%nat ->
  forall a st, dir_Open a (p +:+ "/") st = then_slash (dir_Open a p st).
Proof.
  induction n as [|n IH]; intros p Hlen a st; [lia|].
  rewrite (dir_Open_eq a (p +:+ "/")), (dir_Open_eq a p).
  destruct (SplitN_2_shape p) as [[E Hs]|(p0 & p1 & E & Hp0 & Hp)].
  - rewrite E, (SplitN_join p "" Hs).
    munfold. destruct (dir_find a p st) as [[[file err] st']|msg]; simpl; [|easy].
    destruct file as [[f|b|x]|]; reflexivity.
  - assert (Hsh := SplitN_rest_shorter _ _ _ _ E).
    subst p. rewrite E, append_assoc_slash, (SplitN_join _ _ Hp0).
    munfold. destruct (dir_find a p0 st) as [[[file err] st']|msg]; simpl; [|easy].
    destruct file as [[f|b|x]|]; try reflexivity.
    apply IH. lia.
Qed.

(** C2 (amended). A trailing separator after a path [p] turns the outcome of
    [Open(p)] into: the same container, when [Open(p)] found a container;
    [os.ErrNotExist] and no node in every other case (a file, an external
    node, a failed lookup). *)
Theorem Open_trailing_slash (st : state) (root : nat) (p : string) :
  dir_Open root (p +:+ "/") st = then_slash (dir_Open root p st).
Proof. apply (dir_Open_then_slash_aux (S (String.length p))). lia. Qed.

(** C2 (as stated) fails: ["foo/"] ends in the separator and resolves to the
    directory [foo] of the test tree. *)
Lemma trailing_slash_counterexample :
  ~ (forall p : string,
       exists st', dir_Open testFS_root (p +:+ "/") testFS_state
                   = Ret ((None, Some ErrNotExist), st')).
Proof.
  intros H. destruct (H "foo") as [st' Hst']. vm_compute in Hst'. discriminate.
Qed.

(** ** Nodes of the package under [Stat] and [find] *)

Lemma Stat_pkg st n :
  pkg_node st n = true -> Stat n st = Ret ((info_of n, None), st).
Proof. destruct n; simpl; intros H; try reflexivity. discriminate. Qed.

Lemma find_loop_pkg st files name :
  forallb (pkg_node st) files = true ->
  find_loop files name st = Ret ((None, Some ErrNotExist), st) \/
  exists n, n ∈ files /\ pkg_node st n = true /\
            find_loop files name st = Ret ((Some n, None), st).
Proof.
  induction files as [|f files IH]; simpl; intros H; [now left|].
  apply andb_true_iff in H as [Hf Hfiles].
  rewrite (bind_Ret _ _ _ _ _ (Stat_pkg _ _ Hf)).
  assert (exists nm, Name (info_of f) st = Ret (nm, st)) as [nm Hnm].
  { destruct f as [g|b|x]; simpl in *; [now eexists| |discriminate].
    apply bool_decide_eq_true in Hf as [d Hd].
    exists (d_name d). unfold dir_Name, get_dir. munfold. now rewrite Hd. }
  rewrite (bind_Ret _ _ _ _ _ Hnm).
  destruct (String.eqb nm name).
  - right. exists f. repeat split; [apply list_elem_of_here|exact Hf].
  - destruct (IH Hfiles) as [E|(n & Hin & Hn & E)]; [now left|].
    right. exists n. repeat split; [now apply list_elem_of_further|exact Hn|exact E].
Qed.

Lemma find_loop_first_named st files name n :
  first_named st files name = Some n ->
  find_loop files name st = Ret ((Some n, None), st).
Proof.
  induction files as [|f files IH]; simpl; [discriminate|].
  destruct f as [g|b|x]; [| |discriminate].
  - munfold. simpl. destruct (String.eqb (f_name g) name); [now intros [= <-]|exact IH].
  - destruct (dirs st !! b) as [d|] eqn:Hd; [|discriminate].
    unfold Stat, dir_Stat, Name, dir_Name, get_dir. munfold. simpl. rewrite Hd.
    destruct (String.eqb (d_name d) name); [now intros [= <-]|exact IH].
Qed.

Lemma plain_segment_inv seg :
  plain_segment seg = true ->
  (String.eqb seg "" || String.eqb seg ".") = false /\ has_slash seg = false.
Proof.
  unfold plain_segment. intros H.
  apply andb_true_iff in H as [H H3]. apply andb_true_iff in H as [H1 H2].
  apply negb_true_iff in H1, H2, H3. now rewrite H1, H2, H3.
Qed.

Lemma dir_find_plain st a d seg :
  plain_segment seg = true -> dirs st !! a = Some d ->
  dir_find a seg st = find_loop (d_files d) seg st.
Proof.
  intros [Hs _]%plain_segment_inv Hd. unfold dir_find. rewrite Hs.
  unfold get_dir. munfold. now rewrite Hd.
Qed.

Lemma dir_Open_placed st a segs n :
  placed st a segs n ->
  dir_Open a (join_path segs) st = Ret ((Some n, None), st).
Proof.
  revert a. induction segs as [|seg rest IH]; intros a; [intros []|].
  intros (Hseg & d & Hd & Hrest). rewrite dir_Open_eq.
  destruct (plain_segment_inv _ Hseg) as [_ Hns].
  destruct rest as [|seg' rest].
  - simpl. rewrite (SplitN_plain _ Hns), (dir_find_plain _ _ _ _ Hseg Hd).
    now apply find_loop_first_named.
  - destruct Hrest as (b & Hb & Hpl).
    change (join_path (seg :: seg' :: rest))
      with (seg +:+ String slash (join_path (seg' :: rest))).
    rewrite (SplitN_join _ _ Hns).
    assert (Hf : dir_find a seg st = Ret ((Some (NDir b), None), st)).
    { rewrite (dir_find_plain _ _ _ _ Hseg Hd). now apply find_loop_first_named. }
    rewrite (bind_Ret _ _ _ _ _ Hf). now apply IH.
Qed.

(** C9. When a path has further segments after its first one and the lookup
    of the first segment yields anything but a [*dir] of this package (a
    file, an external node even if it reports to be a directory, or nothing),
    [Open] fails with [os.ErrNotExist] and returns no node. *)
Theorem Open_descends_only_into_dir
    (st st' : state) (a : nat) (head rest : string)
    (file : option node) (err : option error) :
  has_slash head = false ->
  dir_find a head st = Ret ((file, err), st') ->
  (forall b, file <> Some (NDir b)) ->
  dir_Open a (head +:+ String slash rest) st = Ret ((None, Some ErrNotExist), st').
Proof.
  intros Hhead Hfind Hnot.
  rewrite dir_Open_eq, (SplitN_join _ _ Hhead), (bind_Ret _ _ _ _ _ Hfind).
  destruct file as [[f|b|x]|]; try reflexivity. now destruct (Hnot b).
Qed.

Lemma Open_descends_only_into_dir_witness :
  dir_Open 1 "real/x" stub_state
  = Ret ((None, Some ErrNotExist),
         mkstate (dirs stub_state) (readers stub_state)
                 (<[1%nat := mkext 1 (ext_Stat dir_like_stub)]> (exts stub_state))).
Proof.
  apply (Open_descends_only_into_dir stub_state _ 1 "real" "x" (Some (NExt 1)) None).
  - reflexivity.
  - reflexivity.
  - intros b. discriminate.
Defined.

Lemma dir_Open_pkg_aux (k : nat) :
  forall p, (String.length p < k)%nat ->
  forall st a, pkg_built st -> is_Some (dirs st !! a) ->
  exists file err,
    dir_Open a p st = Ret ((file, err), st) /\
    (err = None /\ is_Some file \/ err = Some ErrNotExist /\ file = None).
Proof.
  induction k as [|k IH]; intros p Hlen st a Hst [d Hd]; [lia|].
  assert (Hfind : forall seg, exists file err,
            dir_find a seg st = Ret ((file, err), st) /\
            (err = None /\ (exists n, file = Some n /\ pkg_node st n = true) \/
             err = Some ErrNotExist /\ file = None)).
  { intros seg. unfold dir_find.
    destruct (String.eqb seg "" || String.eqb seg ".").
    - exists (Some (NDir a)), None. split; [reflexivity|]. left. split; [easy|].
      exists (NDir a). split; [easy|]. simpl. apply bool_decide_eq_true. now exists d.
    - unfold get_dir. munfold. rewrite Hd.
      destruct (find_loop_pkg st (d_files d) seg (Hst _ _ Hd))
        as [E|(n & _ & Hn & E)]; rewrite E; eauto 10. }
  rewrite dir_Open_eq.
  destruct (SplitN_2_shape p) as [[E _]|(p0 & p1 & E & _ & Hp)]; rewrite E.
  - destruct (Hfind p) as (file & err & -> & [[-> (n & -> & _)]|[-> ->]]);
      eauto 10.
  - destruct (Hfind p0) as (file & err & Hf & Hcases).
    rewrite (bind_Ret _ _ _ _ _ Hf).
    destruct Hcases as [[-> (n & -> & Hn)]|[-> ->]]; [|eauto 10].
    destruct n as [f|b|x]; [eauto 10| |discriminate].
    apply IH; [|exact Hst|now apply bool_decide_eq_true in Hn].
    pose proof (SplitN_rest_shorter _ _ _ _ E). lia.
Qed.

(** C10. In a tree built by this package alone, [Open] returns, with a node or
    with [os.ErrNotExist], and leaves the whole store as it was: no read
    cursor and no listing cursor moves. *)
Theorem Open_changes_nothing (st : state) (root : nat) (p : string) :
  pkg_built st -> is_Some (dirs st !! root) ->
  exists file err,
    dir_Open root p st = Ret ((file, err), st) /\
    (err = None /\ is_Some file \/ err = Some ErrNotExist /\ file = None).
Proof. apply (dir_Open_pkg_aux (S (String.length p))). lia. Qed.

Lemma Open_changes_nothing_witness :
  exists file err,
    dir_Open testFS_root "foo/baz/oops" testFS_state = Ret ((file, err), testFS_state) /\
    (err = None /\ is_Some file \/ err = Some ErrNotExist /\ file = None).
Proof.
  apply Open_changes_nothing.
  - apply map_Forall_to_list. vm_compute. repeat constructor.
  - vm_compute. eauto.
Defined.

(** ** Reading a file *)

Lemma len_nonneg {A} (l : list A) : 0 <= len l.
Proof. unfold len. lia. Qed.

Lemma Reader_Len_valid r :
  0 <= r_i r <= len (r_s r) -> Reader_Len r = len (r_s r) - r_i r.
Proof.
  intros H. unfold Reader_Len.
  destruct (Z.geb_spec (r_i r) (len (r_s r))); lia.
Qed.

Lemma Reader_Len_unread r :
  0 <= r_i r -> Reader_Len r = len (drop (Z.to_nat (r_i r)) (r_s r)).
Proof.
  intros H. unfold Reader_Len, len. rewrite length_drop.
  destruct (Z.geb_spec (r_i r) (Z.of_nat (length (r_s r)))); lia.
Qed.

Lemma file_Size_eq st f r :
  readers st !! f_Reader f = Some r -> file_Size f st = Ret (Reader_Len r, st).
Proof. intros H. unfold file_Size, get_reader. munfold. now rewrite H. Qed.

Lemma file_Read_at_end st f r n :
  readers st !! f_Reader f = Some r -> len (r_s r) <= r_i r ->
  file_Read f n st = Ret (([], 0, Some EOF), st).
Proof.
  intros H Hi. unfold file_Read, Reader_Read, get_reader. munfold. rewrite H.
  destruct (Z.geb_spec (r_i r) (len (r_s r))); [reflexivity|lia].
Qed.

Lemma file_Read_inside st f r n :
  readers st !! f_Reader f = Some r -> 0 <= r_i r < len (r_s r) ->
  let data := take n (drop (Z.to_nat (r_i r)) (r_s r)) in
  file_Read f n st =
  Ret ((data, len data, None),
       mkstate (dirs st)
               (<[f_Reader f := mkReader (r_s r) (r_i r + len data)]> (readers st))
               (exts st)).
Proof.
  intros H Hi. unfold file_Read, Reader_Read, get_reader, put_reader. munfold.
  rewrite H.
  destruct (Z.geb_spec (r_i r) (len (r_s r))); [lia|].
  destruct (Z.ltb_spec (r_i r) 0); [lia|]. reflexivity.
Qed.

Lemma len_take_drop {A} (l : list A) (i : Z) (n : nat) :
  0 <= i <= len l ->
  len (take n (drop (Z.to_nat i) l)) = Z.min (Z.of_nat n) (len l - i).
Proof.
  intros H. unfold len in *. rewrite length_take, length_drop. lia.
Qed.

Lemma take_drop_step {A} (l : list A) (k n : nat) :
  take n (drop k l) ++ drop (k + length (take n (drop k l))) l = drop k l.
Proof.
  rewrite <- drop_drop. generalize (drop k l) as l'. intros l'.
  destruct (Nat.le_gt_cases n (length l')).
  - rewrite length_take, Nat.min_l by lia. apply take_drop.
  - rewrite take_ge by lia. rewrite drop_all. apply app_nil_r.
Qed.

Lemma ReadAll_from f C chunk :
  (0 < chunk)%nat ->
  forall fuel i acc st,
  readers st !! f_Reader f = Some (mkReader C i) ->
  0 <= i <= len C -> len C - i < Z.of_nat fuel ->
  exists st',
    ReadAll fuel f chunk acc st = Ret (Some (acc ++ drop (Z.to_nat i) C, None), st') /\
    dirs st' = dirs st /\ exts st' = exts st /\
    readers st' = <[f_Reader f := mkReader C (len C)]> (readers st).
Proof.
  intros Hchunk. induction fuel as [|fuel IH]; intros i acc st0 Hr Hi Hfuel; [lia|].
  simpl. destruct (Z.eq_dec i (len C)) as [->|Hne].
  - rewrite (bind_Ret _ _ _ _ _ (file_Read_at_end _ _ _ chunk Hr ltac:(simpl; lia))).
    exists st0. unfold len. rewrite Nat2Z.id, drop_all. repeat split.
    now rewrite insert_id.
  - pose proof (file_Read_inside _ _ _ chunk Hr ltac:(simpl; lia)) as Hread.
    simpl in Hread. rewrite (bind_Ret _ _ _ _ _ Hread).
    set (data := take chunk (drop (Z.to_nat i) C)) in *.
    assert (Hdata : len data = Z.min (Z.of_nat chunk) (len C - i))
      by (apply len_take_drop; lia).
    destruct (IH (i + len data) (acc ++ data)
                 (mkstate (dirs st0)
                    (<[f_Reader f := mkReader C (i + len data)]> (readers st0))
                    (exts st0)))
      as (st' & E & Hd & He & Hrd).
    + simpl. apply lookup_insert_eq.
    + lia.
    + lia.
    + exists st'. rewrite E. simpl in *. repeat split; [|exact Hd|exact He|].
      * rewrite <- app_assoc. unfold data.
        replace (Z.to_nat (i + len (take chunk (drop (Z.to_nat i) C))))
          with (Z.to_nat i + length (take chunk (drop (Z.to_nat i) C)))%nat
          by (unfold len; lia).
        now rewrite take_drop_step.
      * rewrite Hrd. now rewrite insert_insert_eq.
Qed.

Lemma File_options_times f ts st :
  File_options f (map OTime ts) st =
  Ret (mkfile (f_name f) (f_size f) (default (f_modTime f) (last ts)) (f_Reader f), st).
Proof.
  revert f. induction ts as [|t ts IH]; intros f; simpl.
  - now destruct f.
  - rewrite IH. simpl. destruct ts as [|t0 ts]; [reflexivity|].
    change (last (t :: t0 :: ts)) with (last (t0 :: ts)).
    destruct (proj2 (last_is_Some (t0 :: ts)) ltac:(discriminate)) as [x ->].
    reflexivity.
Qed.

(** [File] allocates a reader over the bytes of [contents], at index 0. *)
Lemma File_times name contents ts st :
  let p := fresh (dom (readers st)) in
  let b := list_byte_of_string contents in
  File name contents (map OTime ts) st =
  Ret (NFile (mkfile name (len b) (default zeroTime (last ts)) p),
       mkstate (dirs st) (<[p := mkReader b 0]> (readers st)) (exts st)).
Proof.
  intros p b. unfold File, new_reader. munfold. fold p b.
  now rewrite File_options_times.
Qed.



(** C7. The size of a file is the number of bytes between its read cursor and
    the end of its content, at the time of the query: a [Read] that returns
    [k] bytes lowers it by [k]. The size of a directory is 0. *)
Theorem Size_is_unread_length (st : state) (f : file) (r : Reader) (n : nat) :
  readers st !! f_Reader f = Some r ->
  0 <= r_i r ->
  let unread := drop (Z.to_nat (r_i r)) (r_s r) in
  Size (Some (IFile f)) st = Ret (len unread, st) /\
  (exists data err st',
     file_Read f n st = Ret ((data, len data, err), st') /\
     Size (Some (IFile f)) st' = Ret (len unread - len data, st')) /\
  (forall a, Size (Some (IDir a)) st = Ret (0, st)).
Proof.
  intros Hr Hi unread.
  assert (Hlen : Reader_Len r = len unread) by now apply Reader_Len_unread.
  split; [|split].
  - simpl. now rewrite (file_Size_eq _ _ _ Hr), Hlen.
  - destruct (Z.le_gt_cases (len (r_s r)) (r_i r)) as [Hend|Hin].
    + exists [], (Some EOF), st. split.
      * now apply (file_Read_at_end _ _ _ _ Hr).
      * simpl. rewrite (file_Size_eq _ _ _ Hr), Hlen.
        unfold len at 2. simpl. now rewrite Z.sub_0_r.
    + pose proof (file_Read_inside _ _ _ n Hr ltac:(lia)) as Hread. simpl in Hread.
      fold unread in Hread. set (data := take n unread) in *.
      eexists data, None, _. split; [exact Hread|].
      simpl. erewrite file_Size_eq by (simpl; apply lookup_insert_eq).
      assert (Hdata : len data <= len unread)
        by (unfold data, len; rewrite length_take; lia).
      assert (Hun : len unread = len (r_s r) - r_i r)
        by (unfold unread, len; rewrite length_drop; unfold len in Hin; lia).
      rewrite Reader_Len_valid; simpl; [|pose proof (len_nonneg data); lia].
      do 2 f_equal. lia.
  - reflexivity.
Qed.

Lemma Size_is_unread_length_witness :
  let f := mkfile "hello" 5 zeroTime 2 in
  let unread := list_byte_of_string "hello" in
  Size (Some (IFile f)) testFS_state = Ret (len unread, testFS_state) /\
  (exists data err st',
     file_Read f 3 testFS_state = Ret ((data, len data, err), st') /\
     Size (Some (IFile f)) st' = Ret (len unread - len data, st')) /\
  (forall a, Size (Some (IDir a)) testFS_state = Ret (0, testFS_state)).
Proof.
  apply (Size_is_unread_length testFS_state (mkfile "hello" 5 zeroTime 2)
           (mkReader (list_byte_of_string "hello") 0) 3).
  - reflexivity.
  - simpl. lia.
Defined.

(** C8. The modification time of a file is the time given to [File], the last
    one if several were given and the zero time if none was, and the query
    returns in every store; on a directory the query panics. *)
Theorem ModTime_of_file_and_dir :
  (forall name contents st, exists f st',
     File name contents [] st = Ret (NFile f, st') /\
     forall st'', ModTime (Some (IFile f)) st'' = Ret (zeroTime, st'')) /\
  (forall name contents ts t st, exists f st',
     File name contents (map OTime (ts ++ [t])) st = Ret (NFile f, st') /\
     forall st'', ModTime (Some (IFile f)) st'' = Ret (t, st'')) /\
  (forall f st, ModTime (Some (IFile f)) st = Ret (f_modTime f, st)) /\
  (forall a st, ModTime (Some (IDir a)) st = Panic "unimplemented").
Proof.
  split; [|split; [|split]].
  - intros name contents st. do 2 eexists. split.
    + apply (File_times name contents []).
    + reflexivity.
  - intros name contents ts t st. do 2 eexists. split.
    + apply (File_times name contents (ts ++ [t])).
    + intros st''. simpl. now rewrite last_snoc.
  - reflexivity.
  - reflexivity.
Qed.

(** ** Listing *)

(** [Stat] reads and writes the external objects only. *)
Lemma Stat_frame n st D R :
  Stat n (mkstate D R (exts st)) =
  match Stat n st with
  | Ret (r, st') => Ret (r, mkstate D R (exts st'))
  | Panic msg => Panic msg
  end.
Proof.
  destruct n as [f|b|x]; try reflexivity.
  simpl. unfold ext_do_Stat. simpl.
  destruct (exts st !! x) as [o|]; [|reflexivity].
  destruct (ext_Stat o (ext_state o)) as [[info|e] s']; reflexivity.
Qed.

Lemma Stat_preserves n st r st' :
  Stat n st = Ret (r, st') -> dirs st' = dirs st /\ readers st' = readers st.
Proof.
  destruct n as [f|b|x]; simpl; try (intros [= _ <-]; easy).
  unfold ext_do_Stat. destruct (exts st !! x) as [o|]; [|discriminate].
  destruct (ext_Stat o (ext_state o)) as [[info|e] s']; intros [= _ <-]; easy.
Qed.

Lemma Stat_each_frame files : forall st D R,
  Stat_each files (mkstate D R (exts st)) =
  match Stat_each files st with
  | Ret (r, st') => Ret (r, mkstate D R (exts st'))
  | Panic msg => Panic msg
  end.
Proof.
  induction files as [|f files IH]; intros st D R; [reflexivity|].
  simpl. munfold. rewrite Stat_frame.
  destruct (Stat f st) as [[[stat err] st1]|msg]; [|reflexivity].
  destruct err as [e|]; [reflexivity|].
  rewrite (IH st1 D R).
  destruct (Stat_each files st1) as [[[infos err'] st2]|msg]; reflexivity.
Qed.

Lemma Stat_each_preserves files : forall st r st',
  Stat_each files st = Ret (r, st') ->
  dirs st' = dirs st /\ readers st' = readers st.
Proof.
  induction files as [|f files IH]; intros st r st'; simpl.
  - munfold. now intros [= _ <-].
  - munfold. destruct (Stat f st) as [[[stat err] st1]|msg] eqn:E; [|discriminate].
    destruct (Stat_preserves _ _ _ _ E) as [Hd Hr].
    destruct err as [e|]; [intros [= _ <-]; easy|].
    destruct (Stat_each files st1) as [[[infos err'] st2]|msg] eqn:E2; [|discriminate].
    destruct (IH _ _ _ E2) as [Hd2 Hr2]. intros [= _ <-]. split; congruence.
Qed.

Lemma Stat_each_length files : forall st infos st',
  Stat_each files st = Ret ((infos, None), st') -> length infos = length files.
Proof.
  induction files as [|f files IH]; intros st infos st'; simpl; munfold.
  - now intros [= <- _].
  - destruct (Stat f st) as [[[stat err] st1]|msg]; [|discriminate].
    destruct err as [e|]; [discriminate|].
    destruct (Stat_each files st1) as [[[infos' err'] st2]|msg] eqn:E2; [|discriminate].
    intros [= <- -> _]. simpl. f_equal. now apply (IH _ _ _ E2).
Qed.

Lemma Stat_each_pkg st files :
  forallb (pkg_node st) files = true ->
  Stat_each files st = Ret ((info_of <$> files, None), st).
Proof.
  induction files as [|f files IH]; simpl; intros H; [reflexivity|].
  apply andb_true_iff in H as [Hf Hfiles].
  rewrite (bind_Ret _ _ _ _ _ (Stat_pkg _ _ Hf)).
  now rewrite (bind_Ret _ _ _ _ _ (IH Hfiles)).
Qed.

Lemma slice_prefix {A} (done rest : list A) st :
  slice (done ++ rest) 0 (Z.of_nat (length done)) st = Ret (done, st).
Proof.
  unfold slice, len. rewrite length_app.
  destruct (Z.ltb_spec 0 0); [lia|].
  destruct (Z.ltb_spec (Z.of_nat (length done)) 0); [lia|].
  destruct (Z.ltb_spec (Z.of_nat (length done + length rest)) (Z.of_nat (length done))); [lia|].
  simpl. munfold. rewrite Z.sub_0_r, Nat2Z.id, drop_0.
  now rewrite take_app_length.
Qed.

Lemma insert_at_end {A} (done rest : list A) (x y : A) :
  <[length done := x]> (done ++ y :: rest) = (done ++ [x]) ++ rest.
Proof.
  rewrite insert_app_r_alt by lia. rewrite Nat.sub_diag. simpl.
  now rewrite <- app_assoc.
Qed.

(** The loop of [Readdir(0)] collects what [Stat_each] collects. *)
Lemma Readdir_all_spec files : forall done st,
  Readdir_all files (done ++ replicate (length files) None) (length done) st =
  match Stat_each files st with
  | Ret ((infos, err), st') => Ret ((done ++ infos, err), st')
  | Panic msg => Panic msg
  end.
Proof.
  induction files as [|f files IH]; intros done st; simpl.
  - munfold. now rewrite !app_nil_r.
  - munfold. destruct (Stat f st) as [[[stat err] st1]|msg]; [|reflexivity].
    rewrite insert_at_end. destruct err as [e|].
    + rewrite <- app_assoc. rewrite slice_prefix. now rewrite app_nil_r.
    + specialize (IH (done ++ [stat]) st1).
      rewrite length_app, Nat.add_1_r in IH. rewrite IH.
      destruct (Stat_each files st1) as [[[infos err'] st2]|msg]; [|reflexivity].
      now rewrite <- app_assoc.
Qed.

Lemma dir_Readdir_zero st a d :
  dirs st !! a = Some d -> dir_Readdir a 0 st = Stat_each (d_files d) st.
Proof.
  intros Hd. unfold dir_Readdir, get_dir. munfold. simpl. rewrite Hd.
  pose proof (Readdir_all_spec (d_files d) [] st) as H.
  cbn [app length] in H. rewrite H.
  destruct (Stat_each (d_files d) st) as [[[infos err] st']|msg]; reflexivity.
Qed.

Lemma with_position_eq st a d p :
  dirs st !! a = Some d ->
  with_position st a p =
  mkstate (<[a := mkdir (d_name d) (d_files d) p]> (dirs st)) (readers st) (exts st).
Proof. intros H. unfold with_position. now rewrite H. Qed.

Lemma with_position_lookup st a d p :
  dirs st !! a = Some d ->
  dirs (with_position st a p) !! a = Some (mkdir (d_name d) (d_files d) p).
Proof. intros H. rewrite (with_position_eq _ _ _ _ H). apply lookup_insert_eq. Qed.

Lemma with_position_twice st a d p q :
  dirs st !! a = Some d ->
  with_position (with_position st a p) a q = with_position st a q.
Proof.
  intros H. rewrite (with_position_eq _ _ _ q (with_position_lookup _ _ _ p H)).
  rewrite !(with_position_eq _ _ _ _ H). simpl. now rewrite insert_insert_eq.
Qed.

Lemma with_position_same st a d :
  dirs st !! a = Some d -> with_position st a (d_position d) = st.
Proof.
  intros H. rewrite (with_position_eq _ _ _ _ H).
  destruct st as [D R E]. simpl in *. f_equal.
  apply insert_id. rewrite H. now destruct d.
Qed.

(** C5. [Readdir(0)] queries the children of the directory in their order, in
    one call; when every query succeeds it returns one entry per child, for
    children of this package the children themselves; it leaves every
    directory of the store, so also the cursor of this one, as it was; and
    what it returns does not depend on where the cursor stands. *)
Theorem Readdir_zero_lists_all (st : state) (a : nat) (d : dir) :
  dirs st !! a = Some d ->
  dir_Readdir a 0 st = Stat_each (d_files d) st /\
  (forall infos st', dir_Readdir a 0 st = Ret ((infos, None), st') ->
     length infos = length (d_files d)) /\
  (forallb (pkg_node st) (d_files d) = true ->
     dir_Readdir a 0 st = Ret ((info_of <$> d_files d, None), st)) /\
  (forall r st', dir_Readdir a 0 st = Ret (r, st') ->
     dirs st' = dirs st /\ dirs st' !! a = Some d) /\
  (forall p, dir_Readdir a 0 (with_position st a p) =
     match dir_Readdir a 0 st with
     | Ret (r, st') => Ret (r, with_position st' a p)
     | Panic msg => Panic msg
     end).
Proof.
  intros Hd. rewrite (dir_Readdir_zero _ _ _ Hd). split; [reflexivity|].
  split; [|split; [|split]].
  - intros infos st'. apply Stat_each_length.
  - apply Stat_each_pkg.
  - intros r st' E. destruct (Stat_each_preserves _ _ _ _ E) as [Hdirs _].
    split; [exact Hdirs|]. now rewrite Hdirs.
  - intros p.
    rewrite (dir_Readdir_zero _ _ _ (with_position_lookup _ _ _ p Hd)).
    cbn [d_files]. rewrite (with_position_eq _ _ _ _ Hd), Stat_each_frame.
    destruct (Stat_each (d_files d) st) as [[r st']|msg] eqn:E; [|reflexivity].
    destruct (Stat_each_preserves _ _ _ _ E) as [Hdirs Hreaders].
    rewrite (with_position_eq st' a d) by now rewrite Hdirs.
    now rewrite Hdirs, Hreaders.
Qed.

Lemma Readdir_zero_lists_all_witness :
  let st := with_position testDir_state 0 3 in
  dir_Readdir 0 0 st = Ret ((info_of <$> testDir_files, None), st).
Proof.
  intros st.
  assert (Hd : dirs st !! 0%nat = Some (mkdir "foo" testDir_files 3))
    by (vm_compute; reflexivity).
  refine (proj1 (proj2 (proj2 (Readdir_zero_lists_all st 0 _ Hd))) _).
  vm_compute. reflexivity.
Defined.

Lemma index_inside {A} (l : list A) (k : Z) st :
  0 <= k < len l ->
  exists x, l !! Z.to_nat k = Some x /\ index l k st = Ret (x, st).
Proof.
  intros H. unfold index.
  destruct (Z.ltb_spec k 0); [lia|]. destruct (Z.leb_spec (len l) k); [lia|].
  simpl. destruct (l !! Z.to_nat k) as [x|] eqn:E.
  - now exists x.
  - apply lookup_ge_None in E. unfold len in *. lia.
Qed.

Lemma get_dir_Some st a d : dirs st !! a = Some d -> get_dir a st = Ret (d, st).
Proof. intros H. unfold get_dir. now rewrite H. Qed.

Lemma state_same_position st a d R E :
  dirs st !! a = Some d ->
  mkstate (<[a := mkdir (d_name d) (d_files d) (d_position d + len (@nil (option FileInfo)))]>
             (dirs st)) R E
  = mkstate (dirs st) R E.
Proof.
  intros Hd. f_equal. unfold len. simpl. rewrite Z.add_0_r.
  apply insert_id. rewrite Hd. now destruct d.
Qed.

(** The loop of [Readdir(count)], [count > 0], computes [next_page]. *)
Lemma Readdir_page_spec a n : forall done st d,
  dirs st !! a = Some d ->
  0 <= d_position d <= len (d_files d) ->
  Readdir_page a (done ++ replicate n None) (length done) n st
  = next_page st a d done n.
Proof.
  induction n as [|n IH]; intros done st d Hd Hpos; unfold next_page.
  - simpl. munfold. change (Z.of_nat 0) with 0. rewrite Z.add_0_r.
    destruct (Z.leb_spec (d_position d) (len (d_files d))); [|lia].
    rewrite (state_same_position st a d _ _ Hd). now destruct st.
  - cbn [Readdir_page]. rewrite (bind_Ret _ _ _ _ _ (get_dir_Some _ _ _ Hd)).
    destruct (Z.gtb_spec (d_position d) (len (d_files d) - 1)) as [Hend|Hin].
    + rewrite (bind_Ret _ _ _ _ _ (slice_prefix _ _ _)).
      rewrite drop_ge by (unfold len in *; lia). rewrite take_nil. simpl.
      rewrite app_nil_r.
      destruct (Z.leb_spec (d_position d + Z.of_nat (S n)) (len (d_files d))); [lia|].
      rewrite (state_same_position st a d _ _ Hd). now destruct st.
    + destruct (index_inside (d_files d) (d_position d) st ltac:(lia)) as (f & Hf & Hidx).
      rewrite (bind_Ret _ _ _ _ _ Hidx).
      rewrite (drop_S _ _ _ Hf). rewrite firstn_cons. cbn [Stat_each].
      destruct (Stat f st) as [[[stat err] st1]|msg] eqn:EStat;
        [|now rewrite !(bind_Panic _ _ _ _ EStat)].
      rewrite !(bind_Ret _ _ _ _ _ EStat).
      destruct (Stat_preserves _ _ _ _ EStat) as [Hd1 Hr1].
      cbn [replicate]. rewrite insert_at_end. destruct err as [e|].
      * rewrite <- app_assoc. rewrite (bind_Ret _ _ _ _ _ (slice_prefix _ _ _)).
        simpl. rewrite app_nil_r.
        rewrite <- Hd1. rewrite (state_same_position st1 a d _ _ ltac:(now rewrite Hd1)).
        now destruct st1.
      * assert (Hd1' : dirs st1 !! a = Some d) by now rewrite Hd1.
        rewrite (bind_Ret _ _ _ _ _ (get_dir_Some _ _ _ Hd1')).
        set (d' := mkdir (d_name d) (d_files d) (d_position d + 1)).
        set (st2 := mkstate (<[a := d']> (dirs st1)) (readers st1) (exts st1)).
        rewrite (bind_Ret _ _ _ _ _ (eq_refl : put_dir a d' st1 = Ret (tt, st2))).
        specialize (IH (done ++ [stat]) st2 d').
        rewrite length_app, Nat.add_1_r in IH.
        rewrite IH; [|apply lookup_insert_eq|simpl; lia].
        unfold next_page. simpl.
        replace (Z.to_nat (d_position d + 1)) with (S (Z.to_nat (d_position d))) by lia.
        unfold st2. rewrite (Stat_each_frame _ st1).
        destruct (Stat_each (take n (drop (S (Z.to_nat (d_position d))) (d_files d))) st1)
          as [[[infos err'] st3]|msg] eqn:E3;
          [|now rewrite (bind_Panic _ _ _ _ E3)].
        rewrite (bind_Ret _ _ _ _ _ E3).
        destruct (Stat_each_preserves _ _ _ _ E3) as [_ Hr3].
        rewrite <- app_assoc. simpl. f_equal. f_equal.
        -- f_equal. destruct err' as [e|]; [reflexivity|].
           replace (d_position d + 1 + Z.of_nat n) with (d_position d + Z.of_nat (S n)) by lia.
           reflexivity.
        -- rewrite insert_insert_eq, Hd1, Hr3. f_equal. f_equal. f_equal.
           unfold len. simpl. lia.
Qed.

Lemma dir_Readdir_positive st a d (K : Z) :
  dirs st !! a = Some d -> 0 <= d_position d <= len (d_files d) -> 0 < K ->
  dir_Readdir a K st = next_page st a d [] (Z.to_nat K).
Proof.
  intros Hd Hpos HK. unfold dir_Readdir.
  destruct (Z.eqb_spec K 0); [lia|]. destruct (Z.ltb_spec K 0); [lia|].
  apply (Readdir_page_spec a (Z.to_nat K) [] st d Hd Hpos).
Qed.

(** ** Pages *)

Lemma pkg_node_with_position st a p n :
  pkg_node (with_position st a p) n = pkg_node st n.
Proof.
  destruct n as [f|b|x]; try reflexivity. simpl.
  apply bool_decide_ext. unfold with_position.
  destruct (dirs st !! a) as [d|] eqn:Hd; [|reflexivity]. simpl.
  destruct (decide (a = b)) as [->|Hne].
  - rewrite lookup_insert_eq, Hd. split; eauto.
  - now rewrite lookup_insert_ne.
Qed.

Lemma forallb_pointwise {A} (P Q : A -> bool) (l : list A) :
  (forall x, P x = Q x) -> forallb P l = forallb Q l.
Proof. intros H. induction l as [|x l IH]; simpl; [easy|]. now rewrite H, IH. Qed.

Lemma forallb_take_drop {A} (P : A -> bool) (l : list A) n k :
  forallb P l = true -> forallb P (take n (drop k l)) = true.
Proof.
  rewrite !forallb_forall. intros H x Hx. apply H.
  apply list_elem_of_In in Hx. apply list_elem_of_In.
  now apply (subseteq_drop k l), (subseteq_take n (drop k l)).
Qed.

(** One call of [Readdir(K)] on children of this package, from cursor [c]. *)
Lemma dir_Readdir_pkg st a d (K : Z) :
  dirs st !! a = Some d ->
  0 <= d_position d <= len (d_files d) ->
  forallb (pkg_node st) (d_files d) = true -> 0 < K ->
  let infos := info_of <$> d_files d in
  let got := take (Z.to_nat K) (drop (Z.to_nat (d_position d)) infos) in
  dir_Readdir a K st =
  Ret ((got, if d_position d + K <=? len (d_files d) then None else Some EOF),
       with_position st a (d_position d + len got)).
Proof.
  intros Hd Hpos Hpkg HK infos got.
  rewrite (dir_Readdir_positive _ _ _ _ Hd Hpos HK). unfold next_page.
  rewrite (Stat_each_pkg st _ (forallb_take_drop _ _ _ _ Hpkg)).
  rewrite (with_position_eq _ _ _ _ Hd). simpl.
  rewrite fmap_take, fmap_drop. fold infos got.
  now rewrite Z2Nat.id by lia.
Qed.

Lemma page_at_cursor {A} (l : list A) (k j : nat) :
  take k (drop (Nat.min (j * k) (length l)) l) = take k (drop (j * k) l).
Proof.
  destruct (Nat.le_gt_cases (j * k) (length l)).
  - now rewrite Nat.min_l.
  - rewrite Nat.min_r by lia. now rewrite !drop_ge by lia.
Qed.

Lemma Readdir_times_pkg a (K : Z) (n : nat) : forall (j : nat) st d,
  dirs st !! a = Some d ->
  d_position d = Z.min (Z.of_nat j * K) (len (d_files d)) ->
  forallb (pkg_node st) (d_files d) = true -> 0 < K ->
  Readdir_times n a K st =
  Ret (map (page (info_of <$> d_files d) K) (seq j n),
       with_position st a (Z.min (Z.of_nat (j + n) * K) (len (d_files d)))).
Proof.
  induction n as [|n IH]; intros j st d Hd Hpos Hpkg HK.
  - simpl. munfold. rewrite Nat.add_0_r, <- Hpos.
    now rewrite (with_position_same _ _ _ Hd).
  - cbn [Readdir_times seq map].
    assert (HN : 0 <= len (d_files d)) by apply len_nonneg.
    pose proof (dir_Readdir_pkg st a d K Hd ltac:(lia) Hpkg HK) as Hcall.
    cbv zeta in Hcall.
    set (infos := info_of <$> d_files d) in *.
    assert (Hlen : len infos = len (d_files d))
      by (unfold len, infos; now rewrite length_fmap).
    assert (Hgot : take (Z.to_nat K) (drop (Z.to_nat (d_position d)) infos)
                   = take (Z.to_nat K) (drop (j * Z.to_nat K) infos)).
    { rewrite <- page_at_cursor. f_equal. f_equal. rewrite Hpos.
      unfold len in *. lia. }
    rewrite Hgot in Hcall.
    assert (Hnext : d_position d + len (take (Z.to_nat K) (drop (j * Z.to_nat K) infos))
                    = Z.min (Z.of_nat (S j) * K) (len (d_files d))).
    { unfold len in *. rewrite length_take, length_drop. lia. }
    rewrite Hnext in Hcall.
    assert (Herr : (d_position d + K <=? len (d_files d))
                   = (Z.of_nat (S j) * K <=? len infos)).
    { rewrite Hlen, Hpos.
      destruct (Z.leb_spec (Z.min (Z.of_nat j * K) (len (d_files d)) + K) (len (d_files d)));
      destruct (Z.leb_spec (Z.of_nat (S j) * K) (len (d_files d))); try reflexivity; lia. }
    rewrite Herr in Hcall.
    rewrite (bind_Ret _ _ _ _ _ Hcall).
    pose proof (with_position_lookup st a d
                  (Z.min (Z.of_nat (S j) * K) (len (d_files d))) Hd) as Hd'.
    erewrite (bind_Ret _ _ _ _ _ (IH (S j) _ _ Hd' _ _ HK)).
    + munfold. unfold page at 1. cbn [d_files]. fold infos.
      rewrite (with_position_twice _ _ _ _ _ Hd).
      now replace (S j + n)%nat with (j + S n)%nat by lia.
  Unshelve.
    * reflexivity.
    * cbn [d_files]. rewrite <- Hpkg. apply forallb_pointwise.
      intros x. apply pkg_node_with_position.
Qed.

Lemma concat_chunks {A} (k : nat) : forall (m : nat) (l : list A),
  (length l <= m * k)%nat ->
  concat (map (fun j => take k (drop (j * k) l)) (seq 0 m)) = l.
Proof.
  induction m as [|m IH]; intros l Hl.
  - simpl in *. destruct l; [reflexivity|simpl in Hl; lia].
  - cbn [seq map concat]. rewrite <- seq_shift, map_map.
    rewrite drop_0.
    rewrite (map_ext _ (fun j => take k (drop (j * k) (drop k l)))).
    + rewrite IH by (rewrite length_drop; lia). apply take_drop.
    + intros j. now rewrite drop_drop.
Qed.

Lemma dir_Close_resets st a d p :
  dirs st !! a = Some d -> d_position d = 0 ->
  dir_Close a (with_position st a p) = Ret (None, st).
Proof.
  intros Hd Hpos. unfold dir_Close.
  rewrite (bind_Ret _ _ _ _ _ (get_dir_Some _ _ _ (with_position_lookup _ _ _ p Hd))).
  unfold put_dir. munfold. cbn [d_name d_files]. f_equal. f_equal.
  rewrite (with_position_eq _ _ _ _ Hd). cbn [dirs readers exts].
  rewrite insert_insert_eq. rewrite <- Hpos.
  rewrite <- (with_position_eq _ _ _ _ Hd). now apply with_position_same.
Qed.




(** ** A failing [Stat] during a listing *)

Lemma Stat_each_stops pre f post : forall st infos st1 o e st2,
  Stat_each pre st = Ret ((infos, None), st1) ->
  Stat f st1 = Ret ((o, Some e), st2) ->
  Stat_each (pre ++ f :: post) st = Ret ((infos, Some e), st2).
Proof.
  induction pre as [|g pre IH]; intros st infos st1 o e st2 Hpre Hf.
  - simpl in Hpre. munfold. injection Hpre as <- <-.
    simpl. now rewrite (bind_Ret _ _ _ _ _ Hf).
  - simpl in *.
    destruct (Stat g st) as [[[stat err] st0]|msg] eqn:Eg;
      [|now rewrite (bind_Panic _ _ _ _ Eg) in Hpre].
    rewrite (bind_Ret _ _ _ _ _ Eg) in Hpre. rewrite (bind_Ret _ _ _ _ _ Eg).
    cbv beta iota in Hpre |- *.
    destruct err as [e'|]; [discriminate|].
    destruct (Stat_each pre st0) as [[[infos' err'] st0']|msg] eqn:Epre;
      [|now rewrite (bind_Panic _ _ _ _ Epre) in Hpre].
    rewrite (bind_Ret _ _ _ _ _ Epre) in Hpre. cbv beta iota in Hpre.
    injection Hpre as <- -> <-.
    now rewrite (bind_Ret _ _ _ _ _ (IH _ _ _ _ _ _ Epre Hf)).
Qed.


(** C6. The earlier revision of [Readdir], listing with [count == 0] a
    directory that holds the file ["one"] and then a stub whose [Stat] fails,
    returns the stub's error with no entry at all: the entry of ["one"] is
    dropped by the slice [r[0 : i-1]]; when the failing stub is the first
    child the same slice panics. The later revision returns the entry of
    ["one"] with the error. *)
Theorem Readdir_rev1_drops_entry :
  let one := mkfile "one" 0 zeroTime 0 in
  let e := errorsNew "stat failed" in
  let st' := mkstate (dirs stub_state) (readers stub_state)
                     (<[0%nat := mkext 1 (ext_Stat failing_stub)]> (exts stub_state)) in
  dir_Readdir_rev1 0 0 stub_state = Ret (([], Some e), st') /\
  dir_Readdir_rev1 2 0 stub_state = Panic "slice bounds out of range" /\
  dir_Readdir 0 0 stub_state = Ret (([Some (IFile one)], Some e), st') /\
  dir_Readdir 2 0 stub_state = Ret (([], Some e), st').
Proof. repeat split. Qed.

(** * Further properties of the package *)

(** ** More on path resolution *)

Lemma dir_Open_two_parts a head rest st :
  has_slash head = false ->
  dir_Open a (head +:+ String slash rest) st =
  match dir_find a head st with
  | Ret ((Some (NDir b), _), st') => dir_Open b rest st'
  | Ret (_, st') => Ret ((None, Some ErrNotExist), st')
  | Panic msg => Panic msg
  end.
Proof.
  intros Hhead. rewrite dir_Open_eq, (SplitN_join _ _ Hhead). munfold.
  destruct (dir_find a head st) as [[[file err] st']|msg]; [|reflexivity].
  destruct file as [[f|b|x]|]; reflexivity.
Qed.

Lemma dir_Open_skip_aux (s rest : string) :
  (forall b st, dir_Open b (s +:+ rest) st = dir_Open b rest st) ->
  forall n p, (String.length p < n)%nat ->
  forall a st,
    dir_Open a (p +:+ String slash (s +:+ rest)) st
    = dir_Open a (p +:+ String slash rest) st.
Proof.
  intros Hs. induction n as [|n IH]; intros p Hlen a st; [lia|].
  destruct (SplitN_2_shape p) as [[_ Hp]|(p0 & p1 & E & Hp0 & Hp)].
  - rewrite !(dir_Open_two_parts _ _ _ _ Hp).
    destruct (dir_find a p st) as [[[file err] st']|msg]; [|reflexivity].
    destruct file as [[f|b|x]|]; try reflexivity. apply Hs.
  - assert (Hsh := SplitN_rest_shorter _ _ _ _ E). subst p.
    rewrite !append_assoc_slash, !(dir_Open_two_parts _ _ _ _ Hp0).
    destruct (dir_find a p0 st) as [[[file err] st']|msg]; [|reflexivity].
    destruct file as [[f|b|x]|]; try reflexivity. apply IH. lia.
Qed.

Lemma dir_Open_leading_dot a p st :
  dir_Open a (String "." (String slash p)) st = dir_Open a p st.
Proof.
  change (String "." (String slash p)) with ("." +:+ String slash p).
  now rewrite dir_Open_two_parts.
Qed.

(** X1. A segment that is empty or ["."] and is followed by a further segment
    is skipped: a doubled separator and ["/./"] inside a path resolve like a
    single separator, and a leading ["./"] is ignored. *)
Theorem Open_skips_empty_and_dot_segments
    (st : state) (a : nat) (p rest : string) :
  dir_Open a (p +:+ "//" +:+ rest) st = dir_Open a (p +:+ "/" +:+ rest) st /\
  dir_Open a (p +:+ "/./" +:+ rest) st = dir_Open a (p +:+ "/" +:+ rest) st /\
  dir_Open a ("./" +:+ rest) st = dir_Open a rest st.
Proof.
  split; [|split].
  - apply (dir_Open_skip_aux "/" rest (fun b st => dir_Open_leading_slash b rest st)
             (S (String.length p))). lia.
  - apply (dir_Open_skip_aux "./" rest (fun b st => dir_Open_leading_dot b rest st)
             (S (String.length p))). lia.
  - apply dir_Open_leading_dot.
Qed.

Lemma name_of_Name st n nm :
  name_of st n = Some nm -> Name (info_of n) st = Ret (nm, st).
Proof.
  destruct n as [f|b|x]; simpl; [now intros [= <-]| |discriminate].
  unfold dir_Name, get_dir. munfold.
  destruct (dirs st !! b) as [d|]; [|discriminate]. now intros [= <-].
Qed.

Lemma pkg_node_name_of st n :
  pkg_node st n = true -> exists nm, name_of st n = Some nm.
Proof.
  destruct n as [f|b|x]; simpl; [eauto| |discriminate].
  intros [d ->]%bool_decide_eq_true. simpl. eauto.
Qed.

Lemma find_loop_skip st pre rest name :
  forallb (pkg_node st) pre = true ->
  Forall (fun m => name_of st m <> Some name) pre ->
  find_loop (pre ++ rest) name st = find_loop rest name st.
Proof.
  induction pre as [|m pre IH]; intros Hpkg Hnames; [reflexivity|].
  apply andb_true_iff in Hpkg as [Hm Hpre]. inversion Hnames as [|? ? Hne Hrest]; subst.
  cbn [app find_loop]. rewrite (bind_Ret _ _ _ _ _ (Stat_pkg _ _ Hm)).
  destruct (pkg_node_name_of _ _ Hm) as [nm Hnm].
  rewrite (bind_Ret _ _ _ _ _ (name_of_Name _ _ _ Hnm)).
  destruct (String.eqb_spec nm name) as [->|_]; [now destruct Hne|].
  now apply IH.
Qed.

Lemma dir_Open_plain st a d name :
  dirs st !! a = Some d -> plain_segment name = true ->
  dir_Open a name st = find_loop (d_files d) name st.
Proof.
  intros Hd Hname. destruct (plain_segment_inv _ Hname) as [_ Hns].
  now rewrite dir_Open_eq, (SplitN_plain _ Hns), (dir_find_plain _ _ _ _ Hname Hd).
Qed.

(** X2. Looking up one plain segment in a directory whose children are nodes of
    this package returns the first child of that name, so that a later child
    of the same name is never reached, and [os.ErrNotExist] when no child has
    the name; the store is unchanged. *)
Theorem Open_first_match_wins
    (st : state) (a : nat) (d : dir) (name : string) :
  dirs st !! a = Some d ->
  forallb (pkg_node st) (d_files d) = true ->
  plain_segment name = true ->
  (forall pre n post,
     d_files d = pre ++ n :: post ->
     Forall (fun m => name_of st m <> Some name) pre ->
     name_of st n = Some name ->
     dir_Open a name st = Ret ((Some n, None), st)) /\
  (Forall (fun m => name_of st m <> Some name) (d_files d) ->
   dir_Open a name st = Ret ((None, Some ErrNotExist), st)).
Proof.
  intros Hd Hpkg Hname. rewrite (dir_Open_plain _ _ _ _ Hd Hname). split.
  - intros pre n post Hfiles Hpre Hn. rewrite Hfiles in *.
    rewrite forallb_app in Hpkg. apply andb_true_iff in Hpkg as [Hpkg_pre Hpkg_rest].
    simpl in Hpkg_rest. apply andb_true_iff in Hpkg_rest as [Hpkg_n _].
    rewrite (find_loop_skip _ _ _ _ Hpkg_pre Hpre). cbn [find_loop].
    rewrite (bind_Ret _ _ _ _ _ (Stat_pkg _ _ Hpkg_n)).
    rewrite (bind_Ret _ _ _ _ _ (name_of_Name _ _ _ Hn)).
    now rewrite String.eqb_refl.
  - intros Hall. rewrite <- (app_nil_r (d_files d)).
    now rewrite (find_loop_skip _ _ _ _ Hpkg Hall).
Qed.

Lemma Open_first_match_wins_witness :
  dir_Open 0 "baz" testFS_state
  = Ret ((Some (NFile (mkfile "baz" 3 zeroTime 1)), None), testFS_state).
Proof.
  refine (proj1 (Open_first_match_wins testFS_state 0
                   (mkdir "baz" [NFile (mkfile "baz" 3 zeroTime 1)] 0) "baz" _ _ _)
            [] _ [] _ _ _); try reflexivity.
  constructor.
Defined.

(** X3. When [Stat] of a child fails before any child of the wanted name was
    met, looking up a plain segment returns that error itself, not
    [os.ErrNotExist], also when a later child has the name; with further
    segments behind it the error is replaced by [os.ErrNotExist]. *)
Theorem Open_reports_Stat_error
    (st st' : state) (a : nat) (d : dir) (name : string)
    (pre post : list node) (x : node) (o : option FileInfo) (e : error) :
  dirs st !! a = Some d ->
  d_files d = pre ++ x :: post ->
  forallb (pkg_node st) pre = true ->
  Forall (fun m => name_of st m <> Some name) pre ->
  plain_segment name = true ->
  Stat x st = Ret ((o, Some e), st') ->
  dir_Open a name st = Ret ((None, Some e), st') /\
  forall rest,
    dir_Open a (name +:+ String slash rest) st = Ret ((None, Some ErrNotExist), st').
Proof.
  intros Hd Hfiles Hpkg Hpre Hname Hstat.
  assert (Hfind : dir_find a name st = Ret ((None, Some e), st')).
  { rewrite (dir_find_plain _ _ _ _ Hname Hd), Hfiles.
    rewrite (find_loop_skip _ _ _ _ Hpkg Hpre). cbn [find_loop].
    now rewrite (bind_Ret _ _ _ _ _ Hstat). }
  destruct (plain_segment_inv _ Hname) as [_ Hns]. split.
  - now rewrite dir_Open_eq, (SplitN_plain _ Hns).
  - intros rest. now rewrite (dir_Open_two_parts _ _ _ _ Hns), Hfind.
Qed.

Lemma Open_reports_Stat_error_witness :
  let st' := mkstate (dirs stub_state) (readers stub_state)
                     (<[0%nat := mkext 1 (ext_Stat failing_stub)]> (exts stub_state)) in
  dir_Open 0 "two" stub_state = Ret ((None, Some (errorsNew "stat failed")), st') /\
  forall rest,
    dir_Open 0 ("two" +:+ String slash rest) stub_state
    = Ret ((None, Some ErrNotExist), st').
Proof.
  apply (Open_reports_Stat_error stub_state _ 0
           (mkdir "d" [NFile (mkfile "one" 0 zeroTime 0); NExt 0] 0) "two"
           [NFile (mkfile "one" 0 zeroTime 0)] [] (NExt 0) None).
  - reflexivity.
  - reflexivity.
  - reflexivity.
  - repeat constructor. discriminate.
  - reflexivity.
  - reflexivity.
Defined.

Lemma find_loop_pkg_found st files name n err st' :
  forallb (pkg_node st) files = true ->
  find_loop files name st = Ret ((Some n, err), st') ->
  st' = st /\ pkg_node st n = true /\ name_of st n = Some name.
Proof.
  induction files as [|f files IH]; simpl; intros Hpkg.
  - munfold. discriminate.
  - apply andb_true_iff in Hpkg as [Hf Hfiles].
    rewrite (bind_Ret _ _ _ _ _ (Stat_pkg _ _ Hf)).
    destruct (pkg_node_name_of _ _ Hf) as [nm Hnm].
    rewrite (bind_Ret _ _ _ _ _ (name_of_Name _ _ _ Hnm)).
    destruct (String.eqb_spec nm name) as [->|_]; [|now apply IH].
    munfold. now intros [= <- _ <-].
Qed.

Lemma dir_find_pkg_found st a d seg n err st' :
  pkg_built st -> dirs st !! a = Some d -> has_slash seg = false ->
  dir_find a seg st = Ret ((Some n, err), st') ->
  st' = st /\ pkg_node st n = true /\
  (n = NDir a \/ name_of st n = Some seg /\ plain_segment seg = true).
Proof.
  intros Hst Hd Hseg. unfold dir_find, plain_segment.
  destruct (String.eqb seg "" || String.eqb seg ".") eqn:Hself.
  - munfold. intros [= <- _ <-]. repeat split; [|now left].
    simpl. apply bool_decide_eq_true. now exists d.
  - rewrite (bind_Ret _ _ _ _ _ (get_dir_Some _ _ _ Hd)). intros Hf.
    destruct (find_loop_pkg_found _ _ _ _ _ _ (Hst _ _ Hd) Hf) as (-> & Hn & Hnm).
    repeat split; [exact Hn|]. right. split; [exact Hnm|].
    apply orb_false_iff in Hself as [-> ->]. now rewrite Hseg.
Qed.

Lemma Open_result_aux (st : state) (k : nat) :
  pkg_built st ->
  forall p, (String.length p < k)%nat ->
  forall a n err st', is_Some (dirs st !! a) ->
  dir_Open a p st = Ret ((Some n, err), st') ->
  n = NDir a \/ exists nm, name_of st n = Some nm /\ plain_segment nm = true.
Proof.
  intros Hst. induction k as [|k IH]; intros p Hlen a n err st' [d Hd]; [lia|].
  destruct (SplitN_2_shape p) as [[E Hp]|(p0 & p1 & E & Hp0 & Hp)].
  - rewrite dir_Open_eq, E. intros Hf.
    destruct (dir_find_pkg_found _ _ _ _ _ _ _ Hst Hd Hp Hf) as (_ & _ & [->|[Hn Hpl]]);
      eauto.
  - assert (Hsh := SplitN_rest_shorter _ _ _ _ E). subst p.
    rewrite (dir_Open_two_parts _ _ _ _ Hp0).
    destruct (dir_find a p0 st) as [[[file err0] st0]|msg] eqn:Hf; [|discriminate].
    destruct file as [[f|b|x]|]; try discriminate.
    destruct (dir_find_pkg_found _ _ _ _ _ _ _ Hst Hd Hp0 Hf) as (-> & Hb & Hcases).
    intros Hopen.
    apply (IH p1 ltac:(lia) b n err st') in Hopen;
      [|now apply bool_decide_eq_true in Hb].
    destruct Hopen as [->|Hnamed]; [|now right].
    destruct Hcases as [[= ->]|[Hn Hpl]]; [now left|right; eauto].
Qed.

(** X4. In a tree built by this package, whatever path is given, the node that
    [Open] returns is the directory it was called on or a node whose name is
    a plain segment: a node whose name is empty, is ["."] or contains the
    separator is out of reach of every path. *)
Theorem Open_result_is_nameable
    (st st' : state) (a : nat) (p : string) (n : node) (err : option error) :
  pkg_built st -> is_Some (dirs st !! a) ->
  dir_Open a p st = Ret ((Some n, err), st') ->
  n = NDir a \/ exists nm, name_of st n = Some nm /\ plain_segment nm = true.
Proof.
  intros Hst Ha. apply (Open_result_aux st (S (String.length p)) Hst p); [lia|exact Ha].
Qed.

Lemma Open_result_is_nameable_witness :
  NDir 2 = NDir testFS_root \/
  exists nm, name_of testFS_state (NDir 2) = Some nm /\ plain_segment nm = true.
Proof.
  apply (Open_result_is_nameable testFS_state testFS_state testFS_root
           "foo/baz/" (NDir 2) None).
  - apply map_Forall_to_list. vm_compute. repeat constructor.
  - vm_compute. eauto.
  - vm_compute. reflexivity.
Defined.

(** ** Construction and closing *)

Lemma file_Close_eq st f r :
  readers st !! f_Reader f = Some r ->
  file_Close f st =
  Ret (None, mkstate (dirs st) (<[f_Reader f := mkReader (r_s r) 0]> (readers st))
                     (exts st)).
Proof.
  intros Hr. unfold file_Close, file_Seek, Reader_Seek, get_reader, put_reader.
  munfold. now rewrite Hr.
Qed.

(** X5. [Close] of a file never panics and never fails, wherever the read
    cursor stands: it returns nil, puts the cursor of the file's reader back
    to 0 and touches nothing else, so that reading to the end afterwards
    yields the whole content again. *)
Theorem file_Close_rewinds
    (st : state) (f : file) (r : Reader) (chunk fuel : nat) :
  readers st !! f_Reader f = Some r ->
  (0 < chunk)%nat -> (length (r_s r) < fuel)%nat ->
  let st' := mkstate (dirs st)
                     (<[f_Reader f := mkReader (r_s r) 0]> (readers st)) (exts st) in
  file_Close f st = Ret (None, st') /\
  exists st'', ReadAll fuel f chunk [] st' = Ret (Some (r_s r, None), st'').
Proof.
  intros Hr Hchunk Hfuel st'. split; [now apply file_Close_eq|].
  destruct (ReadAll_from f (r_s r) chunk Hchunk fuel 0 [] st') as (st'' & E & _).
  - simpl. apply lookup_insert_eq.
  - pose proof (len_nonneg (r_s r)). lia.
  - unfold len. lia.
  - exists st''. exact E.
Qed.

Lemma file_Close_rewinds_witness :
  let f := mkfile "hello" 5 zeroTime 2 in
  let st := mkstate (dirs testFS_state)
                    (<[2%nat := mkReader (list_byte_of_string "hello") 4]>
                       (readers testFS_state)) (exts testFS_state) in
  let st' := mkstate (dirs st)
                     (<[2%nat := mkReader (list_byte_of_string "hello") 0]> (readers st))
                     (exts st) in
  file_Close f st = Ret (None, st') /\
  exists st'', ReadAll 6 f 4 [] st' = Ret (Some (list_byte_of_string "hello", None), st'').
Proof.
  intros f st.
  apply (file_Close_rewinds st f (mkReader (list_byte_of_string "hello") 4) 4 6).
  - reflexivity.
  - lia.
  - simpl. lia.
Defined.

Lemma File_options_other f ts ty rest st :
  File_options f (map OTime ts ++ OOther ty :: rest) st
  = Panic ("Unknown option type " +:+ ty).
Proof. revert f. induction ts as [|t ts IH]; intros f; [reflexivity|apply IH]. Qed.

(** X6. [File] accepts [time.Time] options only: with any sequence of times
    it returns a file, and an option of another type makes it panic, naming
    the type of the first such option, whatever options come before or
    after. *)
Theorem File_accepts_times_only (name contents : string) (st : state) :
  (forall ts, exists f st', File name contents (map OTime ts) st = Ret (NFile f, st')) /\
  (forall ts ty rest,
     File name contents (map OTime ts ++ OOther ty :: rest) st
     = Panic ("Unknown option type " +:+ ty)).
Proof.
  split.
  - intros ts. do 2 eexists. apply File_times.
  - intros ts ty rest. unfold File, new_reader. munfold.
    now rewrite File_options_other.
Qed.

Lemma length_list_byte_of_string (s : string) :
  length (list_byte_of_string s) = String.length s.
Proof. induction s as [|c s IH]; simpl; [reflexivity|]. now rewrite <- IH. Qed.

(** X7. A file built by [File] has a reader of its own, not one of the
    readers already there, and building it changes no other reader and no
    directory; it answers with the name it was given, with the length of its
    content as its size, and is no directory; reading it to the end yields
    the bytes of the content it was built from. *)
Theorem File_round_trip
    (name contents : string) (ts : list Time) (st : state) (chunk fuel : nat) :
  (0 < chunk)%nat -> (String.length contents < fuel)%nat ->
  let b := list_byte_of_string contents in
  exists f st',
    File name contents (map OTime ts) st = Ret (NFile f, st') /\
    readers st !! f_Reader f = None /\
    (forall p, p <> f_Reader f -> readers st' !! p = readers st !! p) /\
    dirs st' = dirs st /\
    Stat (NFile f) st' = Ret ((Some (IFile f), None), st') /\
    Name (Some (IFile f)) st' = Ret (name, st') /\
    Size (Some (IFile f)) st' = Ret (len b, st') /\
    IsDir (Some (IFile f)) st' = Ret (false, st') /\
    exists st'', ReadAll fuel f chunk [] st' = Ret (Some (b, None), st'').
Proof.
  intros Hchunk Hfuel b.
  pose proof (File_times name contents ts st) as HFile. cbv zeta in HFile. fold b in HFile.
  set (p := fresh (dom (readers st))) in *.
  set (f := mkfile name (len b) (default zeroTime (last ts)) p) in *.
  set (st' := mkstate (dirs st) (<[p := mkReader b 0]> (readers st)) (exts st)) in *.
  assert (Hr : readers st' !! f_Reader f = Some (mkReader b 0))
    by apply lookup_insert_eq.
  exists f, st'. repeat apply conj.
  - exact HFile.
  - apply not_elem_of_dom. apply is_fresh.
  - intros q Hq. simpl. now apply lookup_insert_ne.
  - reflexivity.
  - reflexivity.
  - reflexivity.
  - simpl. rewrite (file_Size_eq _ _ _ Hr).
    rewrite Reader_Len_valid by (simpl; pose proof (len_nonneg b); lia).
    simpl. now rewrite Z.sub_0_r.
  - reflexivity.
  - destruct (ReadAll_from f b chunk Hchunk fuel 0 [] st' Hr) as (st'' & E & _).
    + pose proof (len_nonneg b). lia.
    + unfold len, b. rewrite length_list_byte_of_string. lia.
    + exists st''. exact E.
Qed.

Lemma File_round_trip_witness :
  exists f st',
    File "hello" "hello" (map OTime [now]) testFS_state = Ret (NFile f, st') /\
    readers testFS_state !! f_Reader f = None /\
    (forall p, p <> f_Reader f -> readers st' !! p = readers testFS_state !! p) /\
    dirs st' = dirs testFS_state /\
    Stat (NFile f) st' = Ret ((Some (IFile f), None), st') /\
    Name (Some (IFile f)) st' = Ret ("hello"%string, st') /\
    Size (Some (IFile f)) st' = Ret (len (list_byte_of_string "hello"), st') /\
    IsDir (Some (IFile f)) st' = Ret (false, st') /\
    exists st'', ReadAll 6 f 2 [] st'
                 = Ret (Some (list_byte_of_string "hello", None), st'').
Proof.
  apply (File_round_trip "hello" "hello" [now] testFS_state 2 6).
  - lia.
  - simpl. lia.
Defined.

Lemma pkg_node_new_dir st a d n :
  dirs st !! a = None ->
  pkg_node st n = true ->
  pkg_node (mkstate (<[a := d]> (dirs st)) (readers st) (exts st)) n = true.
Proof.
  intros Ha. destruct n as [f|b|x]; simpl; try easy.
  intros [d' Hd']%bool_decide_eq_true. apply bool_decide_eq_true.
  destruct (decide (a = b)) as [->|Hne]; [congruence|].
  rewrite lookup_insert_ne by exact Hne. now exists d'.
Qed.

(** X8. [Dir] and [FileSystem] allocate a directory of their own, with the
    given name (the empty name for [FileSystem]), the given children in the
    given order and the cursor at 0, and change no directory or reader that
    was there; when the children are nodes of this package, listing the new
    directory with [Readdir(0)] returns exactly them, in that order. *)
Theorem Dir_round_trip (name : string) (files : list node) (st : state) :
  forallb (pkg_node st) files = true ->
  exists a st',
    Dir name files st = Ret (NDir a, st') /\
    (exists st0, FileSystem files st = Ret (a, st0) /\
                 dirs st0 !! a = Some (mkdir "" files 0)) /\
    dirs st !! a = None /\
    dirs st' !! a = Some (mkdir name files 0) /\
    (forall b, b <> a -> dirs st' !! b = dirs st !! b) /\
    readers st' = readers st /\
    Name (Some (IDir a)) st' = Ret (name, st') /\
    IsDir (Some (IDir a)) st' = Ret (true, st') /\
    Size (Some (IDir a)) st' = Ret (0, st') /\
    dir_Readdir a 0 st' = Ret ((info_of <$> files, None), st').
Proof.
  intros Hpkg.
  set (a := fresh (dom (dirs st))).
  set (st' := mkstate (<[a := mkdir name files 0]> (dirs st)) (readers st) (exts st)).
  assert (Ha : dirs st !! a = None) by (apply not_elem_of_dom, is_fresh).
  assert (Hd : dirs st' !! a = Some (mkdir name files 0)) by apply lookup_insert_eq.
  exists a, st'. repeat apply conj; try reflexivity.
  - eexists. split; [reflexivity|]. apply lookup_insert_eq.
  - exact Ha.
  - exact Hd.
  - intros b Hb. simpl. now apply lookup_insert_ne.
  - simpl. unfold dir_Name. now rewrite (bind_Ret _ _ _ _ _ (get_dir_Some _ _ _ Hd)).
  - rewrite (dir_Readdir_zero _ _ _ Hd). cbn [d_files]. apply Stat_each_pkg.
    apply forallb_forall. intros x Hx. apply pkg_node_new_dir; [exact Ha|].
    exact (proj1 (forallb_forall _ _) Hpkg x Hx).
Qed.

Lemma Dir_round_trip_witness :
  exists a st',
    Dir "top" [NDir 3; NFile (mkfile "hello" 5 zeroTime 2)] testFS_state
      = Ret (NDir a, st') /\
    dir_Readdir a 0 st'
      = Ret ((info_of <$> [NDir 3; NFile (mkfile "hello" 5 zeroTime 2)], None), st').
Proof.
  destruct (Dir_round_trip "top" [NDir 3; NFile (mkfile "hello" 5 zeroTime 2)]
              testFS_state) as (a & st' & HDir & _ & _ & _ & _ & _ & _ & _ & _ & HReaddir).
  - vm_compute. reflexivity.
  - exists a, st'. split; [exact HDir|exact HReaddir].
Defined.

(** ** More on listing *)

Lemma Stat_each_length_le files : forall st infos err st',
  Stat_each files st = Ret ((infos, err), st') ->
  (length infos <= length files)%nat.
Proof.
  induction files as [|f files IH]; intros st infos err st'; simpl; munfold.
  - intros [= <- _ _]. simpl. lia.
  - destruct (Stat f st) as [[[stat e] st1]|msg]; [|discriminate].
    destruct e as [e|]; [intros [= <- _ _]; simpl; lia|].
    destruct (Stat_each files st1) as [[[infos' err'] st2]|msg] eqn:E2; [|discriminate].
    intros [= <- _ _]. simpl. pose proof (IH _ _ _ _ E2). lia.
Qed.





Lemma slice_zero {A} (r : list A) st : slice r 0 0 st = Ret ([], st).
Proof.
  unfold slice. pose proof (len_nonneg r).
  destruct (Z.ltb_spec (len r) 0); [lia|]. reflexivity.
Qed.



(** ** Cursors shared between opens *)

Lemma first_named_dirs st st' files name :
  dirs st' = dirs st -> first_named st' files name = first_named st files name.
Proof.
  intros H. induction files as [|[f|b|x] files IH]; simpl; [reflexivity| | |reflexivity].
  - now rewrite IH.
  - now rewrite H, IH.
Qed.

Lemma placed_dirs st st' segs : forall a n,
  dirs st' = dirs st -> placed st a segs n -> placed st' a segs n.
Proof.
  induction segs as [|seg rest IH]; intros a n H; [easy|].
  cbn [placed]. intros (Hseg & d & Hd & Hrest). split; [exact Hseg|].
  exists d. rewrite H. split; [exact Hd|].
  rewrite (first_named_dirs _ _ _ _ H).
  destruct rest as [|seg' rest]; [exact Hrest|].
  destruct Hrest as (b & Hb & Hpl). exists b. split; [exact Hb|]. now apply IH.
Qed.

Lemma drop_length_take {A} (l : list A) (n : nat) :
  drop (length (take n l)) l = drop n l.
Proof.
  rewrite length_take. destruct (Nat.le_gt_cases n (length l)).
  - now rewrite Nat.min_l.
  - rewrite Nat.min_r by lia. now rewrite !drop_ge by lia.
Qed.

(** X12. Two opens of the path of a file return the same file value over the
    same reader: after [n] bytes were read through the value of the first
    open, a second open of the path returns that value again, its size is the
    length of the content less the bytes read, and reading it to the end
    yields the content from byte [n] on. *)
Theorem opens_share_read_cursor
    (st : state) (root : nat) (segs : list string) (f : file)
    (C : list byte) (n chunk fuel : nat) :
  placed st root segs (NFile f) ->
  readers st !! f_Reader f = Some (mkReader C 0) ->
  (0 < chunk)%nat -> (length C < fuel)%nat ->
  exists err st1,
    file_Read f n st = Ret ((take n C, len (take n C), err), st1) /\
    dir_Open root (join_path segs) st1 = Ret ((Some (NFile f), None), st1) /\
    Size (Some (IFile f)) st1 = Ret (len C - len (take n C), st1) /\
    exists st2, ReadAll fuel f chunk [] st1 = Ret (Some (drop n C, None), st2).
Proof.
  intros Hplaced Hr Hchunk Hfuel.
  assert (Hresult : exists err st1,
            file_Read f n st = Ret ((take n C, len (take n C), err), st1) /\
            dirs st1 = dirs st /\
            readers st1 !! f_Reader f = Some (mkReader C (len (take n C)))).
  { destruct C as [|c C'] eqn:EC.
    - exists (Some EOF), st. rewrite take_nil. split; [|split; [reflexivity|exact Hr]].
      apply (file_Read_at_end _ _ _ _ Hr). simpl. unfold len. simpl. lia.
    - rewrite <- EC in *. pose proof (file_Read_inside _ _ _ n Hr) as Hread.
      simpl in Hread. rewrite drop_0 in Hread.
      eexists None, _. split; [apply Hread|split; [reflexivity|]].
      + rewrite EC. unfold len. simpl. lia.
      + simpl. apply lookup_insert_eq. }
  destruct Hresult as (err & st1 & Hread & Hdirs & Hr1).
  exists err, st1. split; [exact Hread|]. split; [|split].
  - apply dir_Open_placed. now apply (placed_dirs st).
  - simpl. rewrite (file_Size_eq _ _ _ Hr1). rewrite Reader_Len_valid; [reflexivity|].
    simpl. unfold len. rewrite length_take. lia.
  - destruct (ReadAll_from f C chunk Hchunk fuel (len (take n C)) [] st1 Hr1)
      as (st2 & E & _).
    + unfold len. rewrite length_take. lia.
    + unfold len. lia.
    + exists st2. rewrite E. unfold len. now rewrite Nat2Z.id, drop_length_take.
Qed.

Lemma opens_share_read_cursor_witness :
  let f := mkfile "bar" 3 now 0 in
  let C := list_byte_of_string "BAR" in
  exists err st1,
    file_Read f 2 testFS_state = Ret ((take 2 C, len (take 2 C), err), st1) /\
    dir_Open testFS_root "foo/bar" st1 = Ret ((Some (NFile f), None), st1) /\
    Size (Some (IFile f)) st1 = Ret (len C - len (take 2 C), st1) /\
    exists st2, ReadAll 4 f 8 [] st1 = Ret (Some (drop 2 C, None), st2).
Proof.
  apply (opens_share_read_cursor testFS_state testFS_root ["foo"; "bar"]%string).
  - split; [reflexivity|]. eexists. split; [reflexivity|].
    eexists. split; [reflexivity|]. split; [reflexivity|].
    eexists. split; reflexivity.
  - reflexivity.
  - lia.
  - simpl. lia.
Defined.

Lemma first_named_with_position st b p files name :
  first_named (with_position st b p) files name = first_named st files name.
Proof.
  unfold with_position. destruct (dirs st !! b) as [d|] eqn:Hd; [|reflexivity].
  induction files as [|[f|c|x] files IH]; simpl; [reflexivity| | |reflexivity].
  - now rewrite IH.
  - destruct (decide (b = c)) as [->|Hne].
    + rewrite lookup_insert_eq, Hd. simpl. now rewrite IH.
    + rewrite lookup_insert_ne by exact Hne. now rewrite IH.
Qed.

Lemma placed_with_position st b p segs : forall a n,
  placed st a segs n -> placed (with_position st b p) a segs n.
Proof.
  induction segs as [|seg rest IH]; intros a n; [easy|].
  cbn [placed]. intros (Hseg & d & Hd & Hrest). split; [exact Hseg|].
  assert (Hd' : exists d', dirs (with_position st b p) !! a = Some d' /\
                           d_files d' = d_files d).
  { unfold with_position. destruct (dirs st !! b) as [db|] eqn:Hb; [|eauto].
    simpl. destruct (decide (b = a)) as [->|Hne].
    - rewrite lookup_insert_eq. eexists. split; [reflexivity|]. simpl. congruence.
    - rewrite lookup_insert_ne by exact Hne. eauto. }
  destruct Hd' as (d' & Hd' & Hfiles). exists d'. split; [exact Hd'|].
  rewrite Hfiles, first_named_with_position.
  destruct rest as [|seg' rest]; [exact Hrest|].
  destruct Hrest as (c & Hc & Hpl). exists c. split; [exact Hc|]. now apply IH.
Qed.

Lemma dir_Readdir_at_page a (K : Z) (j : nat) st d :
  dirs st !! a = Some d ->
  d_position d = Z.min (Z.of_nat j * K) (len (d_files d)) ->
  forallb (pkg_node st) (d_files d) = true -> 0 < K ->
  dir_Readdir a K st =
  Ret (page (info_of <$> d_files d) K j,
       with_position st a (Z.min (Z.of_nat (j + 1) * K) (len (d_files d)))).
Proof.
  intros Hd Hpos Hpkg HK.
  pose proof (Readdir_times_pkg a K 1 j st d Hd Hpos Hpkg HK) as H.
  cbn [Readdir_times seq map] in H.
  destruct (dir_Readdir a K st) as [[pg st1]|msg] eqn:E;
    [|now rewrite (bind_Panic _ _ _ _ E) in H].
  rewrite (bind_Ret _ _ _ _ _ E) in H. munfold. now injection H as -> ->.
Qed.



(** ** What [Open] leaves alone *)

Lemma Name_preserves fi st nm st' : Name fi st = Ret (nm, st') -> st' = st.
Proof.
  destruct fi as [[f|b|e]|]; simpl.
  - munfold. now intros [= _ <-].
  - unfold dir_Name, get_dir. munfold.
    destruct (dirs st !! b); [now intros [= _ <-]|discriminate].
  - munfold. now intros [= _ <-].
  - munfold. discriminate.
Qed.

Lemma find_loop_preserves files name : forall st r st',
  find_loop files name st = Ret (r, st') ->
  dirs st' = dirs st /\ readers st' = readers st.
Proof.
  induction files as [|f files IH]; intros st r st'; simpl.
  - munfold. now intros [= _ <-].
  - destruct (Stat f st) as [[[stat err] st1]|msg] eqn:E;
      [|now rewrite (bind_Panic _ _ _ _ E)].
    rewrite (bind_Ret _ _ _ _ _ E).
    destruct (Stat_preserves _ _ _ _ E) as [Hd Hr].
    destruct err as [e|]; [munfold; intros [= _ <-]; easy|].
    destruct (Name stat st1) as [[nm st2]|msg] eqn:EN;
      [|now rewrite (bind_Panic _ _ _ _ EN)].
    rewrite (bind_Ret _ _ _ _ _ EN). apply Name_preserves in EN. subst st2.
    destruct (String.eqb nm name); [munfold; intros [= _ <-]; easy|].
    intros H. apply IH in H as [Hd' Hr']. split; congruence.
Qed.

Lemma dir_find_preserves a name st r st' :
  dir_find a name st = Ret (r, st') ->
  dirs st' = dirs st /\ readers st' = readers st.
Proof.
  unfold dir_find. destruct (String.eqb name "" || String.eqb name ".").
  - munfold. now intros [= _ <-].
  - unfold get_dir. munfold. destruct (dirs st !! a) as [d|]; [|discriminate].
    apply find_loop_preserves.
Qed.

Lemma dir_Open_preserves_aux (k : nat) :
  forall p, (String.length p < k)%nat ->
  forall a st r st', dir_Open a p st = Ret (r, st') ->
  dirs st' = dirs st /\ readers st' = readers st.
Proof.
  induction k as [|k IH]; intros p Hlen a st r st'; [lia|].
  destruct (SplitN_2_shape p) as [[E _]|(p0 & p1 & E & Hp0 & Hp)].
  - rewrite dir_Open_eq, E. apply dir_find_preserves.
  - assert (Hsh := SplitN_rest_shorter _ _ _ _ E). subst p.
    rewrite (dir_Open_two_parts _ _ _ _ Hp0).
    destruct (dir_find a p0 st) as [[[file err] st0]|msg] eqn:Hf; [|discriminate].
    destruct (dir_find_preserves _ _ _ _ _ Hf) as [Hd Hr].
    destruct file as [[f|b|x]|]; try (intros [= _ <-]; easy).
    intros H. apply IH in H as [Hd' Hr']; [|lia]. split; congruence.
Qed.



(** ** The two revisions of [Readdir] *)

Lemma slice_all_but_last {A} (done rest : list A) st :
  slice (done ++ rest) 0 (Z.of_nat (length done) - 1) st =
  match done with
  | [] => Panic "slice bounds out of range"
  | _ :: _ => Ret (removelast done, st)
  end.
Proof.
  unfold slice, len. rewrite length_app. destruct done as [|x done'] eqn:Ed.
  - reflexivity.
  - rewrite <- Ed.
    assert (0 < length done)%nat by (rewrite Ed; simpl; lia).
    destruct (Z.ltb_spec 0 0); [lia|].
    destruct (Z.ltb_spec (Z.of_nat (length done) - 1) 0); [lia|].
    destruct (Z.ltb_spec (Z.of_nat (length done + length rest))
                (Z.of_nat (length done) - 1)); [lia|].
    simpl. munfold. rewrite Z.sub_0_r, drop_0. f_equal. f_equal.
    rewrite removelast_firstn_len.
    replace (Z.to_nat (Z.of_nat (length done) - 1)) with (Nat.pred (length done)) by lia.
    rewrite take_app_le by lia. reflexivity.
Qed.

Lemma Readdir_all_rev1_spec files : forall done st,
  Readdir_all_rev1 files (done ++ replicate (length files) None) (length done) st =
  match Stat_each files st with
  | Ret ((infos, None), st') => Ret ((done ++ infos, None), st')
  | Ret ((infos, Some e), st') =>
      match done ++ infos with
      | [] => Panic "slice bounds out of range"
      | _ :: _ => Ret ((removelast (done ++ infos), Some e), st')
      end
  | Panic msg => Panic msg
  end.
Proof.
  induction files as [|f files IH]; intros done st; simpl.
  - munfold. now rewrite !app_nil_r.
  - munfold. destruct (Stat f st) as [[[stat err] st1]|msg]; [|reflexivity].
    rewrite insert_at_end. destruct err as [e|].
    + rewrite <- app_assoc, slice_all_but_last, app_nil_r.
      destruct done; reflexivity.
    + specialize (IH (done ++ [stat]) st1).
      rewrite length_app, Nat.add_1_r in IH. rewrite IH.
      destruct (Stat_each files st1) as [[[infos err'] st2]|msg]; [|reflexivity].
      rewrite <- !app_assoc. reflexivity.
Qed.

(** X15. The earlier revision of [Readdir] agrees with the later one on every
    paginated call and on every [Readdir(0)] in which no [Stat] fails. When a
    [Stat] fails in [Readdir(0)], after [infos] were collected, the earlier
    revision returns [infos] without its last entry, and panics when [infos]
    is empty, where the later revision returns [infos]. *)
Theorem Readdir_rev1_against_later (st : state) (a : nat) (d : dir) :
  dirs st !! a = Some d ->
  (forall count, count <> 0 -> dir_Readdir_rev1 a count st = dir_Readdir a count st) /\
  (forall infos st',
     dir_Readdir a 0 st = Ret ((infos, None), st') ->
     dir_Readdir_rev1 a 0 st = Ret ((infos, None), st')) /\
  (forall infos e st',
     dir_Readdir a 0 st = Ret ((infos, Some e), st') ->
     dir_Readdir_rev1 a 0 st =
     match infos with
     | [] => Panic "slice bounds out of range"
     | _ :: _ => Ret ((removelast infos, Some e), st')
     end).
Proof.
  intros Hd.
  assert (Hrev1 : dir_Readdir_rev1 a 0 st =
            match Stat_each (d_files d) st with
            | Ret ((infos, None), st') => Ret ((infos, None), st')
            | Ret ((infos, Some e), st') =>
                match infos with
                | [] => Panic "slice bounds out of range"
                | _ :: _ => Ret ((removelast infos, Some e), st')
                end
            | Panic msg => Panic msg
            end).
  { unfold dir_Readdir_rev1. cbn [Z.eqb].
    rewrite (bind_Ret _ _ _ _ _ (get_dir_Some _ _ _ Hd)).
    apply (Readdir_all_rev1_spec (d_files d) [] st). }
  rewrite (dir_Readdir_zero _ _ _ Hd). split; [|split].
  - intros count Hcount. unfold dir_Readdir_rev1, dir_Readdir.
    destruct (Z.eqb_spec count 0); [contradiction|reflexivity].
  - intros infos st' E. now rewrite Hrev1, E.
  - intros infos e st' E. now rewrite Hrev1, E.
Qed.

Lemma Readdir_rev1_against_later_witness :
  let e := errorsNew "stat failed" in
  let one := Some (IFile (mkfile "one" 0 zeroTime 0)) in
  let st' := mkstate (dirs stub_state) (readers stub_state)
                     (<[0%nat := mkext 1 (ext_Stat failing_stub)]> (exts stub_state)) in
  dir_Readdir_rev1 0 0 stub_state = Ret ((removelast [one], Some e), st').
Proof.
  intros e one st'.
  refine (proj2 (proj2 (Readdir_rev1_against_later stub_state 0
            (mkdir "d" [NFile (mkfile "one" 0 zeroTime 0); NExt 0] 0) _))
            [one] e st' _); reflexivity.
Defined.


(** ** The tests of [fakefs_test.go] on the model *)

Example TestFilesystem :
  map (fun path => returned (open_read_close testFS_root path testFS_state))
      ["foo/bar"; "foo/baz/baz/baz/baz"; "hello"; "/hello"; "./hello"; ".//hello"]%string
  = map (fun c => Some (Some c)) ["BAR"; "BAZ"; "hello"; "hello"; "hello"; "hello"]%string.
Proof. vm_compute. reflexivity. Qed.

Example TestDirs :
  map (fun path => returned (dir_Open testFS_root path testFS_state))
      ["foo"; "foo/baz"; "foo/baz/baz"]%string
  = map (fun a => Some (Some (NDir a), None)) [3; 2; 1]%nat.
Proof. vm_compute. reflexivity. Qed.

Example TestSelf :
  map (fun path => returned (dir_Open testFS_root path testFS_state))
      ["/"; ""; "."]%string
  = replicate 3 (Some (Some (NDir testFS_root), None)).
Proof. vm_compute. reflexivity. Qed.

Example TestErrors :
  map (fun path => returned (dir_Open testFS_root path testFS_state))
      ["oops"; "foo/oops"; "foo/baz/baz/oops"; "foo/baz/baz/baz/baz/oops";
       "hello/oops"; "../hello"; "hello/"; "/hello/"]%string
  = replicate 8 (Some (None, Some ErrNotExist)).
Proof. vm_compute. reflexivity. Qed.

Example TestReaddirAll :
  returned (Readdir_names 1 0 0 testDir_state)
  = Some [(["one"; "two"; "three"; "four"; "five"]%string, None)].
Proof. vm_compute. reflexivity. Qed.

Example TestReaddir :
  returned (Readdir_names 5 0 2 testDir_state)
  = Some [(["one"; "two"]%string, None); (["three"; "four"]%string, None);
          (["five"]%string, Some EOF); ([], Some EOF); ([], Some EOF)].
Proof. vm_compute. reflexivity. Qed.
